(** * csv_processor: the [process_csv] management command

    A shallow embedding of [csv_processor/management/commands/process_csv.py]
    and of the two models of [csv_processor/models.py].

    The command is sequential code over four collaborators: the ORM, the
    file system, the ZIP lookup service (through [requests]) and the mail
    backend.  Each of them is a component of an explicit [world]; what the
    outside answers (HTTP responses, mail delivery, the wall clock) comes
    from oracles collected in an [env], indexed by the number of calls made
    so far.  Python exceptions are the [Raise] results of a state-and-error
    monad; writes made before an exception stay in the world, as the ORM
    commits every [create] and [save] at once.

    Modelling choices.  Strings are sequences of code points below 256.
    The ORM never raises: no constraint of the storage engine and no
    failure of the database is modelled, which includes the [create] that
    [process_single_csv] issues before its [try]; statements about a whole
    pass say so where they depend on it.  A [CharField] stores what its
    [to_python] gives: a string as it is, None as NULL, any other value as
    its [str].  The file system may refuse a rename or the making of the
    processed directory: both are oracles of the [env], like the answers
    of the lookup service, of its JSON decoder and of the mail backend.
    Log and console output is left out; of [handle] only the single pass
    of [--once] is modelled, the other mode repeating that pass forever. *)

From Stdlib Require Import ZArith Bool Ascii String List Lia DecimalString.
From stdpp Require Import base option list gmap strings fin_maps.

Set Warnings "-register-all".
Local Open Scope string_scope.
Local Open Scope Z_scope.

(** ** Python values and the [str] methods the command uses *)

Module Py.

(** Values as [json.loads] and [csv.DictReader] hand them to the command.
    A [PDict] lists the items of a dict whose keys are strings, each key
    once.  Strings are sequences of code points below 256; a float is
    given by its [repr]. *)
Inductive pyval : Type :=
| PNone
| PBool (b : bool)
| PInt (n : Z)
| PFloat (repr : string)
| PStr (s : string)
| PList (items : list pyval)
| PDict (items : list (string * pyval)).

Inductive exn_class : Type :=
| RequestException   (* requests.RequestException and its subclasses *)
| TypeError
| AttributeError
| KeyError
| IndexError
| ValueError
| RecursionError
| OSError
| UnicodeDecodeError
| CsvError
| MailError          (* smtplib.SMTPException, BadHeaderError, ... *)
| PlainException.    (* Exception(...) raised by the command itself *)

(** An exception: its class and [str(e)]. *)
Record exn : Type := Exn { exn_cls : exn_class; exn_str : string }.

Inductive result (A : Type) : Type :=
| Ok (a : A)
| Raise (e : exn).
Arguments Ok {A} a.
Arguments Raise {A} e.

Definition is_request_exception (e : exn) : bool :=
  match exn_cls e with RequestException => true | _ => false end.

(** [str.isspace] on one code point below 256. *)
Definition isspace (c : ascii) : bool :=
  let n := nat_of_ascii c in
  ((9 <=? n) && (n <=? 13) || (28 <=? n) && (n <=? 32)
   || (n =? 133) || (n =? 160))%nat.

Fixpoint lstrip (s : string) : string :=
  match s with
  | EmptyString => EmptyString
  | String c r => if isspace c then lstrip r else s
  end.

Fixpoint rstrip (s : string) : string :=
  match s with
  | EmptyString => EmptyString
  | String c r =>
      match rstrip r with
      | EmptyString => if isspace c then EmptyString else String c EmptyString
      | r' => String c r'
      end
  end.

(** [s.strip()] *)
Definition strip (s : string) : string := rstrip (lstrip s).

(** Truth value of a string: [not s] holds for the empty string only. *)
Definition py_not (s : string) : bool :=
  match s with EmptyString => true | _ => false end.

(** [s or d] for strings. *)
Definition py_or (s d : string) : string := if py_not s then d else s.

Definition type_name (v : pyval) : string :=
  match v with
  | PNone => "NoneType" | PBool _ => "bool" | PInt _ => "int"
  | PFloat _ => "float" | PStr _ => "str" | PList _ => "list"
  | PDict _ => "dict"
  end.

Fixpoint assoc (k : string) (items : list (string * pyval)) : option pyval :=
  match items with
  | [] => None
  | (k', v) :: rest => if String.eqb k k' then Some v else assoc k rest
  end.

Fixpoint is_substring (p s : string) : bool :=
  String.prefix p s ||
  match s with
  | EmptyString => false
  | String _ r => is_substring p r
  end.

Definition is_str (k : string) (v : pyval) : bool :=
  match v with PStr s => String.eqb k s | _ => false end.

(** [k in v] for a string [k]. *)
Definition py_in (k : string) (v : pyval) : result bool :=
  match v with
  | PDict items => Ok (bool_decide (is_Some (assoc k items)))
  | PList items => Ok (existsb (is_str k) items)
  | PStr s => Ok (is_substring k s)
  | _ => Raise (Exn TypeError
           ("argument of type '" ++ type_name v ++ "' is not iterable"))
  end.

(** [v[k]] for a string [k]. *)
Definition getitem_str (v : pyval) (k : string) : result pyval :=
  match v with
  | PDict items =>
      match assoc k items with
      | Some x => Ok x
      | None => Raise (Exn KeyError ("'" ++ k ++ "'"))
      end
  | PList _ =>
      Raise (Exn TypeError "list indices must be integers or slices, not str")
  | PStr _ => Raise (Exn TypeError "string indices must be integers, not 'str'")
  | _ => Raise (Exn TypeError
           ("'" ++ type_name v ++ "' object is not subscriptable"))
  end.

(** [len(v)] *)
Definition py_len (v : pyval) : result Z :=
  match v with
  | PList items => Ok (Z.of_nat (length items))
  | PDict items => Ok (Z.of_nat (length items))
  | PStr s => Ok (Z.of_nat (String.length s))
  | _ => Raise (Exn TypeError
           ("object of type '" ++ type_name v ++ "' has no len()"))
  end.

(** [v[0]] *)
Definition getitem_0 (v : pyval) : result pyval :=
  match v with
  | PList (x :: _) => Ok x
  | PList [] => Raise (Exn IndexError "list index out of range")
  | PStr (String c _) => Ok (PStr (String c EmptyString))
  | PStr EmptyString => Raise (Exn IndexError "string index out of range")
  | PDict _ => Raise (Exn KeyError "0")
  | _ => Raise (Exn TypeError
           ("'" ++ type_name v ++ "' object is not subscriptable"))
  end.

(** [v.get(k, d)] *)
Definition py_get (v : pyval) (k : string) (d : pyval) : result pyval :=
  match v with
  | PDict items => Ok (default d (assoc k items))
  | _ => Raise (Exn AttributeError
           ("'" ++ type_name v ++ "' object has no attribute 'get'"))
  end.

(** [v.strip()] on a value that should be a string. *)
Definition py_strip (v : pyval) : result string :=
  match v with
  | PStr s => Ok (strip s)
  | _ => Raise (Exn AttributeError
           ("'" ++ type_name v ++ "' object has no attribute 'strip'"))
  end.

(** Decimal numerals and zero padding, for [strftime] and for the status
    code inside the message of [raise_for_status]. *)
Definition dec (n : nat) : string := NilEmpty.string_of_uint (Nat.to_uint n).

Definition zfill (width : nat) (s : string) : string :=
  string_of_list_ascii (repeat "0"%char (width - String.length s)) ++ s.

Definition isdigit (c : ascii) : bool :=
  let n := nat_of_ascii c in ((48 <=? n) && (n <=? 57))%nat.

Definition all_digits (s : string) : bool :=
  forallb isdigit (list_ascii_of_string s).

(** [repr] of a string: single quotes, unless the string holds one and no
    double quote; the quote and the backslash escaped, as are tab, newline,
    carriage return and, in hexadecimal, what [str.isprintable] rejects. *)
Definition squote : ascii := ascii_of_nat 39.
Definition dquote : ascii := ascii_of_nat 34.
Definition backslash : ascii := ascii_of_nat 92.

Definition hex_digit (n : nat) : ascii :=
  if (n <? 10)%nat then ascii_of_nat (48 + n) else ascii_of_nat (87 + n).

Definition isprintable (c : ascii) : bool :=
  let n := nat_of_ascii c in
  ((32 <=? n) && (n <=? 126) || (161 <=? n) && (n <=? 172)
   || (174 <=? n) && (n <=? 255))%nat.

Definition repr_char (quote c : ascii) : string :=
  let n := nat_of_ascii c in
  if Ascii.eqb c quote || Ascii.eqb c backslash
  then String backslash (String c EmptyString)
  else if (n =? 9)%nat then String backslash "t"
  else if (n =? 10)%nat then String backslash "n"
  else if (n =? 13)%nat then String backslash "r"
  else if isprintable c then String c EmptyString
  else String backslash
         (String "x" (String (hex_digit (n / 16))
                        (String (hex_digit (n mod 16)) EmptyString))).

Fixpoint repr_chars (quote : ascii) (s : string) : string :=
  match s with
  | EmptyString => EmptyString
  | String c r => repr_char quote c ++ repr_chars quote r
  end.

Definition has_char (c : ascii) (s : string) : bool :=
  existsb (Ascii.eqb c) (list_ascii_of_string s).

Definition repr_str (s : string) : string :=
  let quote :=
    if has_char squote s && negb (has_char dquote s) then dquote else squote in
  String quote (repr_chars quote s ++ String quote EmptyString).

(** [repr(v)] *)
Fixpoint py_repr (v : pyval) : string :=
  match v with
  | PNone => "None"
  | PBool true => "True"
  | PBool false => "False"
  | PInt n => NilEmpty.string_of_int (Z.to_int n)
  | PFloat r => r
  | PStr s => repr_str s
  | PList items => "[" ++ String.concat ", " (List.map py_repr items) ++ "]"
  | PDict items =>
      "{" ++ String.concat ", "
               (List.map (fun kv => match kv with
                                    | (k, x) => repr_str k ++ ": " ++ py_repr x
                                    end) items) ++ "}"
  end.

(** [str(v)] *)
Definition py_str (v : pyval) : string :=
  match v with
  | PStr s => s
  | _ => py_repr v
  end.

End Py.
Import Py.

(** ** pathlib and datetime *)

Module Path.

(** [name.rfind('.')] *)
Fixpoint rfind_dot (name : string) : option nat :=
  match name with
  | EmptyString => None
  | String c r =>
      match rfind_dot r with
      | Some i => Some (S i)
      | None => if Ascii.eqb c "." then Some 0%nat else None
      end
  end.

(** The index at which [PurePath.suffix] and [PurePath.stem] split the
    name: the last dot, unless it opens or closes the name. *)
Definition split_at (name : string) : option nat :=
  match rfind_dot name with
  | Some i =>
      if ((0 <? i) && (i <? String.length name - 1))%nat then Some i else None
  | None => None
  end.

Definition suffix (name : string) : string :=
  match split_at name with
  | Some i => substring i (String.length name - i) name
  | None => ""
  end.

Definition stem (name : string) : string :=
  match split_at name with
  | Some i => substring 0 i name
  | None => name
  end.

Definition endswith (s suf : string) : bool :=
  let n := String.length s in
  let m := String.length suf in
  ((m <=? n)%nat && String.eqb (substring (n - m) m s) suf).

End Path.

Module Datetime.

Record datetime : Type := {
  year : Z; month : Z; day : Z;
  hour : Z; minute : Z; second : Z
}.

(** The ranges [datetime] enforces on its fields, for a year of four
    digits (below 1000 the output of [%Y] depends on the platform). *)
Definition valid (d : datetime) : Prop :=
  1000 <= year d <= 9999 /\ 1 <= month d <= 12 /\ 1 <= day d <= 31 /\
  0 <= hour d <= 23 /\ 0 <= minute d <= 59 /\ 0 <= second d <= 59.

(** A field in decimal, padded with zeros to [width] characters. *)
Definition pad (width : nat) (n : Z) : string := zfill width (dec (Z.to_nat n)).

(** [d.strftime('%Y%m%d_%H%M%S')] *)
Definition strftime_stamp (d : datetime) : string :=
  pad 4 (year d) ++ pad 2 (month d) ++ pad 2 (day d)
  ++ "_" ++
  pad 2 (hour d) ++ pad 2 (minute d) ++ pad 2 (second d).

End Datetime.
Import Datetime.

(** ** models.py *)

Module Models.

(** The values the command gives to [CSVProcessingRecord.status], and the
    field's default ['pending']. *)
Inductive status_t : Type := pending | processing | completed | failed.

(** [processed_at] (set by the ORM on creation) is left out of both models:
    the command never reads it. *)
Record CSVProcessingRecord : Type := {
  pk : nat;
  filename : string;
  total_rows : Z;
  successful_rows : Z;
  failed_rows : Z;
  status : status_t
}.

Record EmailRecord : Type := {
  processing_record : nat;       (* foreign key: pk of the owner *)
  email_address : string;
  zip_code : string;
  state : pyval;                 (* the column: PNone is NULL, else PStr *)
  city : pyval;
  success : bool;
  error_message : option string
}.

Definition terminal (s : status_t) : bool :=
  match s with completed | failed => true | _ => false end.

End Models.
Import Models.

(** ** csv.DictReader over an opened file *)

Module Csv.

(** What one [next] on the underlying reader gives: the fields of a record,
    or an exception (a byte sequence that is not UTF-8, [csv.Error]). *)
Inductive read_event : Type :=
| Fields (row : list string)
| ReadError (e : exn).

(** A directory entry as [open] and the reader see it: [open] raises, or
    the text has a header record and the events that follow it. *)
Inductive csv_file : Type :=
| Unopenable (e : exn)
| Text (fieldnames : list string) (records : list read_event).

(** [dict(zip(fieldnames, row))], then [restval] (None) under every
    fieldname the row is too short for.  Values beyond the last fieldname
    go under the key [None], which no string key reads. *)
Fixpoint zip_into (d : gmap string pyval) (fieldnames row : list string)
  : gmap string pyval :=
  match fieldnames, row with
  | k :: ks, x :: xs => zip_into (<[k := PStr x]> d) ks xs
  | ks, [] => foldl (fun d k => <[k := PNone]> d) d ks
  | [], _ :: _ => d
  end.

Definition dict_row (fieldnames row : list string) : gmap string pyval :=
  zip_into ∅ fieldnames row.

(** [row.get(k, '')] *)
Definition row_get (row : gmap string pyval) (k : string) : pyval :=
  default (PStr "") (row !! k).

End Csv.
Import Csv.

(** ** The world the command runs in *)

Module World.

(** An HTTP response as the command inspects it: [json_body] is what
    [response.json()] returns, [None] when it raises; it then raises
    [json_error]: a [requests] JSONDecodeError with the decoder's text for
    a body that is not JSON, or what the decoder raises on a body it gives
    up on (RecursionError, ValueError). *)
Record response : Type := {
  status_code : Z;
  reason : string;
  resp_url : string;
  json_body : option pyval;
  json_error : exn
}.

(** What [requests.get] does: raise a [RequestException] (connection
    error, timeout, ...) with the given text, or return a response. *)
Inductive http_outcome : Type :=
| Transport (detail : string)
| Response (r : response).

(** The arguments of one [send_mail] call.  The body is the fixed text of
    [send_email_to_address] around three interpolated values, kept here as
    values. *)
Record message : Type := {
  subject : string;
  body_zip : string;
  body_city : pyval;
  body_state : pyval;
  from_email : string;
  recipient_list : list string
}.

(** Settings and oracles.  [ZIP_API_URL z] is
    [settings.ZIP_API_URL.format(zip=z)]; the two directories of the
    settings are the two directories of the world.  [fs_rename] and
    [mkdir_processed] are the answers of the file system to a move between
    the two directories and to the creation of the processed directory:
    [None], or the OSError raised (name too long, no permission, parent
    missing, ...); like the clock they are indexed by the number of clock
    readings made so far. *)
Record env : Type := {
  ZIP_API_URL : string -> string;
  ZIP_API_TIMEOUT : option Z;
  DEFAULT_FROM_EMAIL : option string;
  http_get : nat -> string -> Z -> http_outcome;
  smtp_send : nat -> message -> option exn;
  now : nat -> datetime;
  fs_rename : nat -> string -> string -> option exn;
  mkdir_processed : nat -> option exn
}.

Record world : Type := {
  (* the two tables; primary keys of the first come from [next_pk] *)
  csv_records : gmap nat CSVProcessingRecord;
  next_pk : nat;
  email_records : list EmailRecord;
  (* CSV_INCOMING_DIR and CSV_PROCESSED_DIR (None: the directory is gone) *)
  incoming : gmap string csv_file;
  processed : option (gmap string csv_file);
  (* the outside: URLs requested, send_mail calls, messages delivered,
     clock readings *)
  http_log : list string;
  mail_calls : nat;
  outbox : list message;
  clock_reads : nat
}.

Definition set_csv_records (f : gmap nat CSVProcessingRecord -> gmap nat CSVProcessingRecord)
  (w : world) : world :=
  {| csv_records := f (csv_records w); next_pk := next_pk w;
     email_records := email_records w; incoming := incoming w;
     processed := processed w; http_log := http_log w;
     mail_calls := mail_calls w; outbox := outbox w;
     clock_reads := clock_reads w |}.

Definition set_next_pk (n : nat) (w : world) : world :=
  {| csv_records := csv_records w; next_pk := n;
     email_records := email_records w; incoming := incoming w;
     processed := processed w; http_log := http_log w;
     mail_calls := mail_calls w; outbox := outbox w;
     clock_reads := clock_reads w |}.

Definition set_email_records (l : list EmailRecord) (w : world) : world :=
  {| csv_records := csv_records w; next_pk := next_pk w;
     email_records := l; incoming := incoming w;
     processed := processed w; http_log := http_log w;
     mail_calls := mail_calls w; outbox := outbox w;
     clock_reads := clock_reads w |}.

Definition set_dirs (i : gmap string csv_file) (p : option (gmap string csv_file))
  (w : world) : world :=
  {| csv_records := csv_records w; next_pk := next_pk w;
     email_records := email_records w; incoming := i;
     processed := p; http_log := http_log w;
     mail_calls := mail_calls w; outbox := outbox w;
     clock_reads := clock_reads w |}.

Definition set_http_log (l : list string) (w : world) : world :=
  {| csv_records := csv_records w; next_pk := next_pk w;
     email_records := email_records w; incoming := incoming w;
     processed := processed w; http_log := l;
     mail_calls := mail_calls w; outbox := outbox w;
     clock_reads := clock_reads w |}.

Definition set_mail (n : nat) (o : list message) (w : world) : world :=
  {| csv_records := csv_records w; next_pk := next_pk w;
     email_records := email_records w; incoming := incoming w;
     processed := processed w; http_log := http_log w;
     mail_calls := n; outbox := o;
     clock_reads := clock_reads w |}.

Definition set_clock_reads (n : nat) (w : world) : world :=
  {| csv_records := csv_records w; next_pk := next_pk w;
     email_records := email_records w; incoming := incoming w;
     processed := processed w; http_log := http_log w;
     mail_calls := mail_calls w; outbox := outbox w;
     clock_reads := n |}.

(** The state-and-exception monad of the command. *)
Definition M (A : Type) : Type := world -> result A * world.

#[global] Instance M_ret : MRet M := fun A a w => (Ok a, w).

#[global] Instance M_bind : MBind M := fun A B f m w =>
  match m w with
  | (Ok a, w') => f a w'
  | (Raise e, w') => (Raise e, w')
  end.

Definition raise {A : Type} (e : exn) : M A := fun w => (Raise e, w).

(** A pure computation that may raise. *)
Definition lift {A : Type} (r : result A) : M A := fun w => (r, w).

(** [try: body except Exception as e: handler(e)] *)
Definition try_except {A : Type} (body : M A) (handler : exn -> M A) : M A :=
  fun w =>
    match body w with
    | (Ok a, w') => (Ok a, w')
    | (Raise e, w') => handler e w'
    end.

(** [for x in xs: body(x)] *)
Fixpoint for_each {A : Type} (xs : list A) (body : A -> M unit) : M unit :=
  match xs with
  | [] => mret tt
  | x :: rest => _ ← body x; for_each rest body
  end.

(** *** The ORM *)

(** [CSVProcessingRecord.objects.create(filename=..., status=...)]: the
    counters take their default 0.  The database is taken to accept the
    row: a name is a string of code points below 256, which it can encode,
    and its other failures (a locked or full database) are not modelled. *)
Definition CSVProcessingRecord_create (name : string) (s : status_t)
  : M CSVProcessingRecord :=
  fun w =>
    let r := {| pk := next_pk w; filename := name; total_rows := 0;
                successful_rows := 0; failed_rows := 0; status := s |} in
    (Ok r, set_next_pk (S (next_pk w))
             (set_csv_records (fun t => <[pk r := r]> t) w)).

(** [record.save()]: every field of the object is written to the row with
    its primary key. *)
Definition save (r : CSVProcessingRecord) : M unit :=
  fun w => (Ok tt, set_csv_records (fun t => <[pk r := r]> t) w).

(** [EmailRecord.objects.create(...)] *)
Definition EmailRecord_create (r : EmailRecord) : M unit :=
  fun w => (Ok tt, set_email_records (email_records w ++ [r]) w).

(** *** requests *)

Definition requests_get (E : env) (url : string) (timeout : Z) : M response :=
  fun w =>
    let w' := set_http_log (http_log w ++ [url]) w in
    match http_get E (length (http_log w)) url timeout with
    | Transport detail => (Raise (Exn RequestException detail), w')
    | Response r => (Ok r, w')
    end.

Definition http_error_msg (kind : string) (r : response) : string :=
  dec (Z.to_nat (status_code r)) ++ " " ++ kind ++ " Error: " ++ reason r
  ++ " for url: " ++ resp_url r.

(** [response.raise_for_status()]: an [HTTPError] for 4xx and 5xx. *)
Definition raise_for_status (r : response) : result unit :=
  if (400 <=? status_code r) && (status_code r <? 500)
  then Raise (Exn RequestException (http_error_msg "Client" r))
  else if (500 <=? status_code r) && (status_code r <? 600)
  then Raise (Exn RequestException (http_error_msg "Server" r))
  else Ok tt.

(** [response.json()] *)
Definition response_json (r : response) : result pyval :=
  match json_body r with
  | Some v => Ok v
  | None => Raise (json_error r)
  end.

(** *** django.core.mail *)

(** [send_mail(..., fail_silently=False)] *)
Definition send_mail (E : env) (m : message) : M unit :=
  fun w =>
    match smtp_send E (mail_calls w) m with
    | Some e => (Raise e, set_mail (S (mail_calls w)) (outbox w) w)
    | None => (Ok tt, set_mail (S (mail_calls w)) (outbox w ++ [m]) w)
    end.

(** [datetime.now()] *)
Definition datetime_now (E : env) : M datetime :=
  fun w => (Ok (now E (clock_reads w)), set_clock_reads (S (clock_reads w)) w).

(** [shutil.move(src, dst)] from the incoming directory into the processed
    one: a rename, which replaces an entry already at [dst].  It raises
    when the source or the target directory is missing, and when the file
    system refuses. *)
Definition shutil_move (E : env) (src dst : string) : M unit :=
  fun w =>
    match incoming w !! src, processed w with
    | Some content, Some dir =>
        match fs_rename E (clock_reads w) src dst with
        | Some e => (Raise e, w)
        | None =>
            (Ok tt, set_dirs (delete src (incoming w))
                      (Some (<[dst := content]> dir)) w)
        end
    | _, _ =>
        (Raise (Exn OSError "[Errno 2] No such file or directory"), w)
    end.

End World.
Import World.

(** ** management/commands/process_csv.py *)

Module Command.

#[global] Instance result_ret : MRet result := fun A a => Ok a.

#[global] Instance result_bind : MBind result := fun A B f r =>
  match r with
  | Ok a => f a
  | Raise e => Raise e
  end.

(** ['places' in data and len(data['places']) > 0] *)
Definition has_places (data : pyval) : result bool :=
  b ← py_in "places" data;
  if b : bool then
    places ← getitem_str data "places";
    n ← py_len places;
    mret (0 <? n)
  else mret false.

Definition get_location_from_zip (E : env) (zip_code : string)
  : M (pyval * pyval) :=
  let url := ZIP_API_URL E zip_code in
  let timeout := default 5 (ZIP_API_TIMEOUT E) in
  try_except
    (response ← requests_get E url timeout;
     _ ← lift (raise_for_status response);
     data ← lift (response_json response);
     nonempty ← lift (has_places data);
     if nonempty : bool then
       places ← lift (getitem_str data "places");
       place ← lift (getitem_0 places);
       state ← lift (py_get place "state" (PStr "Unknown"));
       city ← lift (py_get place "place name" (PStr "Unknown"));
       mret (state, city)
     else mret (PStr "Unknown", PStr "Unknown"))
    (fun e =>
       (* except requests.RequestException as e *)
       if is_request_exception e
       then raise (Exn PlainException
                     ("API error for ZIP " ++ zip_code ++ ": " ++ exn_str e))
       else raise e).

Definition send_email_to_address (E : env) (email zip_code : string)
  (state city : pyval) : M unit :=
  let subject := "Location Information for ZIP " ++ zip_code in
  let from_email := default "noreply@example.com" (DEFAULT_FROM_EMAIL E) in
  send_mail E {| subject := subject; body_zip := zip_code;
                 body_city := city; body_state := state;
                 from_email := from_email; recipient_list := [email] |}.

(** [CharField.to_python], which prepares a value for its column: None
    and strings pass, any other value is stored as its [str]. *)
Definition to_python (v : pyval) : pyval :=
  match v with
  | PNone => PNone
  | PStr s => PStr s
  | _ => PStr (py_str v)
  end.

Definition success_record (record : CSVProcessingRecord) (email zip : string)
  (st ci : pyval) : EmailRecord :=
  {| processing_record := pk record; email_address := email;
     zip_code := zip; state := to_python st; city := to_python ci;
     success := true; error_message := None |}.

Definition failure_record (record : CSVProcessingRecord) (email zip : string)
  (msg : string) : EmailRecord :=
  {| processing_record := pk record; email_address := email;
     zip_code := zip; state := PNone; city := PNone;
     success := false; error_message := Some msg |}.

Definition process_row (E : env) (record : CSVProcessingRecord)
  (zip_code email : string) : M bool :=
  try_except
    (location ← get_location_from_zip E zip_code;
     _ ← send_email_to_address E email zip_code location.1 location.2;
     _ ← EmailRecord_create
           (success_record record email zip_code location.1 location.2);
     mret true)
    (fun e =>
       _ ← EmailRecord_create (failure_record record email zip_code (exn_str e));
       mret false).

(** [for row in reader: ...] with the three counters of
    [process_single_csv].  [DictReader] skips records without fields. *)
Fixpoint rows_loop (E : env) (record : CSVProcessingRecord)
  (fieldnames : list string) (records : list read_event)
  (total_rows successful_rows failed_rows : Z) : M (Z * Z * Z) :=
  match records with
  | [] => mret (total_rows, successful_rows, failed_rows)
  | ReadError e :: _ => raise e
  | Fields [] :: rest =>
      rows_loop E record fieldnames rest total_rows successful_rows failed_rows
  | Fields fields :: rest =>
      let row := dict_row fieldnames fields in
      let total_rows := total_rows + 1 in
      zip_code ← lift (py_strip (row_get row "zip"));
      email ← lift (py_strip (row_get row "email"));
      if py_not zip_code || py_not email then
        _ ← EmailRecord_create
              (failure_record record (py_or email "N/A") (py_or zip_code "N/A")
                 "Missing zip code or email");
        rows_loop E record fieldnames rest
          total_rows successful_rows (failed_rows + 1)
      else
        success ← process_row E record zip_code email;
        if success : bool
        then rows_loop E record fieldnames rest
               total_rows (successful_rows + 1) failed_rows
        else rows_loop E record fieldnames rest
               total_rows successful_rows (failed_rows + 1)
  end.

(** [open(csv_file_path, 'r', encoding='utf-8')] and [csv.DictReader]; a
    path is the name of an entry of the incoming directory. *)
Definition open_csv (csv_file_path : string)
  : M (list string * list read_event) :=
  fun w =>
    match incoming w !! csv_file_path with
    | None =>
        (Raise (Exn OSError ("[Errno 2] No such file or directory: '"
                             ++ csv_file_path ++ "'")), w)
    | Some (Unopenable e) => (Raise e, w)
    | Some (Text fieldnames records) => (Ok (fieldnames, records), w)
    end.

(** The [with open(...)] block of [process_single_csv]. *)
Definition read_rows (E : env) (record : CSVProcessingRecord)
  (csv_file_path : string) : M (Z * Z * Z) :=
  reader ← open_csv csv_file_path;
  rows_loop E record reader.1 reader.2 0 0 0.

Definition move_to_processed (E : env) (csv_file_path : string) : M unit :=
  d ← datetime_now E;
  let timestamp := strftime_stamp d in
  let new_filename :=
    Path.stem csv_file_path ++ "_" ++ timestamp ++ Path.suffix csv_file_path in
  shutil_move E csv_file_path new_filename.

Definition completed_record (record : CSVProcessingRecord)
  (total successful failed_ : Z) : CSVProcessingRecord :=
  {| pk := pk record; filename := filename record; total_rows := total;
     successful_rows := successful; failed_rows := failed_;
     status := completed |}.

Definition failed_record (record : CSVProcessingRecord) : CSVProcessingRecord :=
  {| pk := pk record; filename := filename record;
     total_rows := total_rows record;
     successful_rows := successful_rows record;
     failed_rows := failed_rows record; status := failed |}.

(** The [except Exception] handler of [process_single_csv]; [record] is
    the object as the [try] block left it. *)
Definition on_file_error (record : CSVProcessingRecord) (e : exn) : M unit :=
  save (failed_record record).

Definition process_single_csv (E : env) (csv_file_path : string) : M unit :=
  record ← CSVProcessingRecord_create csv_file_path processing;
  try_except
    (counts ← read_rows E record csv_file_path;
     let record' :=
       completed_record record counts.1.1 counts.1.2 counts.2 in
     (* from here on the handler sees the updated object *)
     try_except
       (_ ← save record';
        move_to_processed E csv_file_path)
       (on_file_error record'))
    (on_file_error record).

(** [incoming_dir.glob('*.csv')]; the order of a directory listing is
    not specified, the order of the map's items stands for it. *)
Definition glob_csv (dir : gmap string csv_file) : list string :=
  List.filter (fun name => Path.endswith name ".csv") (map fst (map_to_list dir)).

Definition process_csv_files (E : env) : M unit :=
  fun w =>
    let csv_files := glob_csv (incoming w) in
    match csv_files with
    | [] => (_ ← datetime_now E; mret tt) w
    | _ => (_ ← datetime_now E;
            for_each csv_files (process_single_csv E)) w
    end.

(** [mkdir(exist_ok=True)] on both directories.  The incoming directory
    of the world is there; the processed one is created when missing,
    unless the file system refuses. *)
Definition ensure_directories (E : env) : M unit :=
  fun w =>
    match processed w with
    | Some _ => (Ok tt, w)
    | None =>
        match mkdir_processed E (clock_reads w) with
        | Some e => (Raise e, w)
        | None => (Ok tt, set_dirs (incoming w) (Some ∅) w)
        end
    end.

(** [handle] under [--once]. *)
Definition handle_once (E : env) : M unit :=
  _ ← ensure_directories E;
  process_csv_files E.

End Command.
Import Command.

(** ** Vocabulary of the specification *)

Module Spec.

(** The data rows of a file: the records [DictReader] yields. *)
Fixpoint data_rows (records : list read_event) : list (list string) :=
  match records with
  | [] => []
  | Fields [] :: rest => data_rows rest
  | Fields row :: rest => row :: data_rows rest
  | ReadError _ :: rest => data_rows rest
  end.

(** A column is present in a row when the row holds a string under it
    that is not empty once trimmed. *)
Definition field_present (row : gmap string pyval) (k : string) : bool :=
  match row !! k with
  | Some (PStr s) => negb (String.eqb (strip s) "")
  | _ => false
  end.

Definition present (fieldnames row : list string) : bool :=
  field_present (dict_row fieldnames row) "zip"
  && field_present (dict_row fieldnames row) "email".

(** N and M of the specification. *)
Definition row_count (records : list read_event) : Z :=
  Z.of_nat (length (data_rows records)).

Definition present_count (fieldnames : list string)
  (records : list read_event) : Z :=
  Z.of_nat (length (List.filter (present fieldnames) (data_rows records))).


(** The RowRecords a ProcessingRecord owns. *)
Definition owned (w : world) (id : nat) : list EmailRecord :=
  List.filter (fun r => Nat.eqb (processing_record r) id) (email_records w).

(** What the command leaves untouched while it works on rows. *)
Definition row_frame (w w' : world) : Prop :=
  csv_records w' = csv_records w /\ next_pk w' = next_pk w /\
  incoming w' = incoming w /\ processed w' = processed w /\
  clock_reads w' = clock_reads w.

(** No lookup was issued and no mail was attempted between [w] and [w']. *)
Definition quiet (w w' : world) : Prop :=
  http_log w' = http_log w /\ mail_calls w' = mail_calls w /\
  outbox w' = outbox w.

(** The world after the lookup for [zip_code] was issued. *)
Definition logged (E : env) (zip_code : string) (w : world) : world :=
  set_http_log (http_log w ++ [ZIP_API_URL E zip_code]) w.

(** The outcome of the next lookup call for [zip_code]. *)
Definition next_outcome (E : env) (zip_code : string) (w : world)
  : http_outcome :=
  http_get E (length (http_log w)) (ZIP_API_URL E zip_code)
    (default 5 (ZIP_API_TIMEOUT E)).

(** A well-formed answer without place entries: a JSON object whose
    ["places"] is missing or empty (a list, a string or an object of
    length 0), or a JSON array or string in which ["places"] does not
    occur. *)
Definition zero_places (data : pyval) : bool :=
  match data with
  | PDict items =>
      match assoc "places" items with
      | None | Some (PList []) | Some (PStr EmptyString) | Some (PDict []) => true
      | Some _ => false
      end
  | PList items => negb (existsb (is_str "places") items)
  | PStr s => negb (is_substring "places" s)
  | _ => false
  end.

(** [detail] is the text of the failure of the next lookup: the transport
    error, or the [HTTPError] of a 4xx or 5xx answer. *)
Definition lookup_failure (E : env) (zip_code : string) (w : world)
  (detail : string) : Prop :=
  next_outcome E zip_code w = Transport detail \/
  exists r, next_outcome E zip_code w = Response r /\
            400 <= status_code r < 600 /\
            detail = http_error_msg
                       (if status_code r <? 500 then "Client" else "Server") r.


(** The shape [YYYYMMDD_HHMMSS]: fourteen digits around one underscore. *)
Definition is_timestamp (ts : string) : Prop :=
  exists date time,
    ts = date ++ "_" ++ time /\
    String.length date = 8%nat /\ String.length time = 6%nat /\
    all_digits date = true /\ all_digits time = true.





(** The check behind the shape of a padded field: [width] digits. *)
Definition padded (width : nat) (n : nat) : bool :=
  Nat.eqb (String.length (zfill width (dec n))) width
  && all_digits (zfill width (dec n)).

(** The object and the world right after the [create] that opens
    [process_single_csv]. *)
Definition fresh_record (path : string) (w : world) : CSVProcessingRecord :=
  {| pk := next_pk w; filename := path; total_rows := 0;
     successful_rows := 0; failed_rows := 0; status := processing |}.

Definition created (path : string) (w : world) : world :=
  set_next_pk (S (next_pk w))
    (set_csv_records (fun t => <[next_pk w := fresh_record path w]> t) w).

(** The name [move_to_processed] gives the file when it reads the clock
    in world [w]. *)
Definition new_filename (E : env) (path : string) (w : world) : string :=
  Path.stem path ++ "_" ++ strftime_stamp (now E (clock_reads w))
  ++ Path.suffix path.


(** The worlds the command can reach from an empty database: it processes
    files, under any settings and answers of the outside, and between its
    steps the two directories change in any way. *)
Inductive reachable : world -> Prop :=
| reach_init w :
    csv_records w = ∅ -> next_pk w = 0%nat -> email_records w = [] ->
    reachable w
| reach_file E path w :
    reachable w -> reachable (process_single_csv E path w).2
| reach_pass E w :
    reachable w -> reachable (process_csv_files E w).2
| reach_dirs i p w :
    reachable w -> reachable (set_dirs i p w).



(** The invariant of the two tables. *)
Definition record_ok (w : world) (id : nat) (r : CSVProcessingRecord) : Prop :=
  pk r = id /\ (id < next_pk w)%nat /\
  (terminal (status r) = true ->
     total_rows r = successful_rows r + failed_rows r /\
     total_rows r <= Z.of_nat (length (owned w id))) /\
  (status r = completed -> Z.of_nat (length (owned w id)) = total_rows r).

Definition db_inv (w : world) : Prop :=
  (forall id r, csv_records w !! id = Some r -> record_ok w id r) /\
  Forall (fun r => (processing_record r < next_pk w)%nat) (email_records w).

End Spec.
Import Spec.

(** ** Concrete settings, answers and files *)

Module Examples.

Definition beverly_hills : pyval :=
  PDict [("post code", PStr "90210");
         ("places", PList [PDict [("place name", PStr "Beverly Hills");
                                  ("state", PStr "California")]])].

Definition no_places : pyval := PDict [("places", PList [])].

Definition null_place : pyval :=
  PDict [("places", PList [PDict [("place name", PNone); ("state", PNone)]])].

(** What [response.json()] raises on an empty body. *)
Definition not_json : exn :=
  Exn RequestException "Expecting value: line 1 column 1 (char 0)".

(** Settings with a lookup service that answers every request with the
    same status and body, a mail backend that delivers, and a clock stopped
    at 2024-01-15 09:30:00. *)
Definition service (code : Z) (why : string) (body : option pyval) : env :=
  {| ZIP_API_URL := fun z => "https://api.zippopotam.us/us/" ++ z;
     ZIP_API_TIMEOUT := None;
     DEFAULT_FROM_EMAIL := Some "webmaster@localhost";
     http_get := fun _ url _ =>
       Response {| status_code := code; reason := why; resp_url := url;
                   json_body := body; json_error := not_json |};
     smtp_send := fun _ _ => None;
     now := fun _ => {| year := 2024; month := 1; day := 15;
                        hour := 9; minute := 30; second := 0 |};
     fs_rename := fun _ _ _ => None;
     mkdir_processed := fun _ => None |}.

(** The same settings with the service unreachable. *)
Definition offline : env :=
  {| ZIP_API_URL := ZIP_API_URL (service 200 "OK" None);
     ZIP_API_TIMEOUT := None;
     DEFAULT_FROM_EMAIL := Some "webmaster@localhost";
     http_get := fun _ _ _ => Transport "Connection refused";
     smtp_send := fun _ _ => None;
     now := now (service 200 "OK" None);
     fs_rename := fun _ _ _ => None;
     mkdir_processed := fun _ => None |}.

(** An empty database, an empty processed directory and the given incoming
    directory. *)
Definition start (dir : gmap string csv_file) : world :=
  {| csv_records := ∅; next_pk := 0; email_records := [];
     incoming := dir; processed := Some ∅;
     http_log := []; mail_calls := 0; outbox := []; clock_reads := 0 |}.

(** The scenario of the specification: one good row, one without zip, one
    without email. *)
Definition scenario : csv_file :=
  Text ["zip"; "email"]
    [Fields ["90210"; "a@x.com"]; Fields [""; "b@x.com"]; Fields ["10001"; ""]].

(** A file whose second row stops after the zip. *)
Definition short_row : csv_file :=
  Text ["zip"; "email"] [Fields ["90210"; "a@x.com"]; Fields ["10001"]].


Definition no_zip_short_row : csv_file :=
  Text ["name"; "email"] [Fields ["bob"]].

Definition a_record : CSVProcessingRecord :=
  {| pk := 0; filename := "input.csv"; total_rows := 0;
     successful_rows := 0; failed_rows := 0; status := processing |}.

End Examples.

(** ** Vocabulary for the behaviour of a whole pass *)

Module Behaviour.

(** The exception the row loop meets first, read off the content of the
    file alone: a read error, or a zip or email cell that is not a string. *)
Fixpoint first_error (fieldnames : list string) (records : list read_event)
  : option exn :=
  match records with
  | [] => None
  | ReadError e :: _ => Some e
  | Fields [] :: rest => first_error fieldnames rest
  | Fields row :: rest =>
      match py_strip (row_get (dict_row fieldnames row) "zip"),
            py_strip (row_get (dict_row fieldnames row) "email") with
      | Raise e, _ => Some e
      | Ok _, Raise e => Some e
      | Ok _, Ok _ => first_error fieldnames rest
      end
  end.

(** A directory entry that cannot be processed to its end. *)
Definition file_fails (c : csv_file) : bool :=
  match c with
  | Unopenable _ => true
  | Text fieldnames records =>
      match first_error fieldnames records with
      | Some _ => true
      | None => false
      end
  end.

(** The trimmed text of a cell, empty when the column is absent. *)
Definition trimmed (fieldnames row : list string) (k : string) : string :=
  match row_get (dict_row fieldnames row) k with
  | PStr s => strip s
  | _ => ""
  end.

(** The URL of the lookup a row with data leads to. *)
Definition lookup_url (E : env) (fieldnames row : list string) : string :=
  ZIP_API_URL E (trimmed fieldnames row "zip").

(** The zip and email a row is recorded under. *)
Definition recorded_as (fieldnames row : list string) : string * string :=
  (py_or (trimmed fieldnames row "zip") "N/A",
   py_or (trimmed fieldnames row "email") "N/A").

(** The check of [padded] run over [fuel] consecutive numbers, counting
    upwards on the decimal digits themselves. *)
Fixpoint padded_from (width fuel : nat) (digits : Decimal.uint) : bool :=
  match fuel with
  | O => true
  | S fuel' =>
      let s := zfill width (NilEmpty.string_of_uint (Decimal.rev digits)) in
      Nat.eqb (String.length s) width && all_digits s
      && padded_from width fuel' (Decimal.Little.succ digits)
  end.

Definition all_space (s : string) : bool :=
  forallb isspace (list_ascii_of_string s).

(** Whether a pass picks an entry up. *)
Definition is_csv (name : string) : bool := Path.endswith name ".csv".

(** The table of ProcessingRecords between two files: the keys handed out
    so far are exactly the keys present, each record sits under its own
    key, and none is left in a status that is not terminal. *)
Definition settled (w : world) : Prop :=
  (forall id, (id < next_pk w)%nat <-> is_Some (csv_records w !! id)) /\
  (forall id r, csv_records w !! id = Some r ->
                pk r = id /\ terminal (status r) = true).

End Behaviour.
Import Behaviour.

(** ** More settings, answers and worlds *)

Module Cases.

(** The settings of [Examples.service] with a mail backend that refuses
    every message. *)
Definition mail_down : env :=
  let E := Examples.service 200 "OK" (Some Examples.beverly_hills) in
  {| ZIP_API_URL := ZIP_API_URL E;
     ZIP_API_TIMEOUT := None;
     DEFAULT_FROM_EMAIL := Some "webmaster@localhost";
     http_get := http_get E;
     smtp_send := fun _ _ =>
       Some (Exn MailError "Connection unexpectedly closed");
     now := now E;
     fs_rename := fun _ _ _ => None;
     mkdir_processed := fun _ => None |}.

(** The settings of [Examples.service] with a service whose answer is
    nested too deep for the JSON decoder. *)
Definition deep_body : env :=
  let E := Examples.service 200 "OK" None in
  {| ZIP_API_URL := ZIP_API_URL E;
     ZIP_API_TIMEOUT := None;
     DEFAULT_FROM_EMAIL := Some "webmaster@localhost";
     http_get := fun _ url _ =>
       Response {| status_code := 200; reason := "OK"; resp_url := url;
                   json_body := None;
                   json_error :=
                     Exn RecursionError
                       "maximum recursion depth exceeded while decoding a JSON array from a unicode string" |};
     smtp_send := smtp_send E;
     now := now E;
     fs_rename := fs_rename E;
     mkdir_processed := mkdir_processed E |}.

(** The settings of [Examples.service] with a file system that refuses
    every rename. *)
Definition disk_full : env :=
  let E := Examples.service 200 "OK" (Some Examples.beverly_hills) in
  {| ZIP_API_URL := ZIP_API_URL E;
     ZIP_API_TIMEOUT := None;
     DEFAULT_FROM_EMAIL := Some "webmaster@localhost";
     http_get := http_get E;
     smtp_send := smtp_send E;
     now := now E;
     fs_rename := fun _ _ _ =>
       Some (Exn OSError "[Errno 28] No space left on device");
     mkdir_processed := mkdir_processed E |}.

(** The settings of [Examples.service] with a file system that does not
    let the processed directory be made. *)
Definition read_only : env :=
  let E := Examples.service 200 "OK" (Some Examples.beverly_hills) in
  {| ZIP_API_URL := ZIP_API_URL E;
     ZIP_API_TIMEOUT := None;
     DEFAULT_FROM_EMAIL := Some "webmaster@localhost";
     http_get := http_get E;
     smtp_send := smtp_send E;
     now := now E;
     fs_rename := fs_rename E;
     mkdir_processed := fun _ =>
       Some (Exn OSError "[Errno 13] Permission denied: 'processed'") |}.

(** An answer that is a JSON object whose places are null. *)
Definition null_places : pyval := PDict [("places", PNone)].

(** An answer whose place gives the state as a number. *)
Definition numeric_state : pyval :=
  PDict [("places",
          PList [PDict [("place name", PStr "New York");
                        ("state", PInt 36)]])].

(** An answer with two places, the first without a place name. *)
Definition two_places : pyval :=
  PDict [("places",
          PList [PDict [("state", PStr "New York")];
                 PDict [("place name", PStr "Elsewhere");
                        ("state", PStr "Other")]])].

(** An empty database and no processed directory. *)
Definition no_processed_dir (dir : gmap string csv_file) : world :=
  {| csv_records := ∅; next_pk := 0; email_records := [];
     incoming := dir; processed := None;
     http_log := []; mail_calls := 0; outbox := []; clock_reads := 0 |}.

(** A directory with a good file, a file that fails and a file a pass
    does not look at. *)
Definition mixed_dir : gmap string csv_file :=
  {["good.csv" := Examples.scenario;
    "bad.csv" := Examples.short_row;
    "notes.txt" := Examples.scenario]}.

End Cases.

(** ** Basic facts about the collaborators *)

Ltac munfold :=
  unfold mbind, mret, M_bind, M_ret, result_bind, result_ret,
    try_except, lift, raise in *.

Ltac frame_solve :=
  unfold row_frame, quiet, logged in *; simpl in *; intuition congruence.

Lemma row_frame_refl w : row_frame w w.
Proof. by repeat split. Qed.

Lemma row_frame_trans w1 w2 w3 :
  row_frame w1 w2 -> row_frame w2 w3 -> row_frame w1 w3.
Proof.
  unfold row_frame. intros (?&?&?&?&?) (?&?&?&?&?).
  repeat split; congruence.
Qed.

Lemma get_location_logs E zip_code w :
  exists res, get_location_from_zip E zip_code w = (res, logged E zip_code w).
Proof.
  unfold get_location_from_zip, requests_get, logged. munfold.
  destruct (http_get _ _ _ _) as [d|r]; simpl; [eauto|].
  destruct (raise_for_status r) as [[]|e]; simpl.
  2: { destruct (is_request_exception e); eauto. }
  destruct (response_json r) as [data|e]; simpl.
  2: { destruct (is_request_exception e); eauto. }
  destruct (has_places data) as [[]|e]; simpl; eauto.
  2: { destruct (is_request_exception e); eauto. }
  destruct (getitem_str data "places") as [p|e]; simpl.
  2: { destruct (is_request_exception e); eauto. }
  destruct (getitem_0 p) as [pl|e]; simpl.
  2: { destruct (is_request_exception e); eauto. }
  destruct (py_get pl "state" _) as [st|e]; simpl.
  2: { destruct (is_request_exception e); eauto. }
  destruct (py_get pl "place name" _) as [ci|e]; simpl; eauto.
  destruct (is_request_exception e); eauto.
Qed.

(** [process_row] always returns, after adding one RowRecord owned by
    [record]. *)
Lemma process_row_shape E record zip_code email w :
  exists b r w',
    process_row E record zip_code email w = (Ok b, w') /\
    row_frame w w' /\
    email_records w' = (email_records w ++ [r])%list /\
    processing_record r = pk record /\ success r = b.
Proof.
  unfold process_row. munfold.
  destruct (get_location_logs E zip_code w) as [res ->].
  destruct res as [[st ci]|e]; simpl.
  - unfold send_email_to_address, send_mail. simpl.
    destruct (smtp_send _ _ _) as [e|]; simpl;
      eexists _, _, _; (split; [reflexivity|]); simpl;
      (split; [frame_solve|]); eauto.
  - eexists _, _, _; (split; [reflexivity|]); simpl.
    split; [frame_solve|]. eauto.
Qed.

(** ** The row loop *)

Lemma py_not_eqb s : py_not s = String.eqb s "".
Proof. by destruct s. Qed.

Lemma field_present_strip row k s :
  py_strip (row_get row k) = Ok s -> field_present row k = negb (py_not s).
Proof.
  unfold row_get, field_present.
  destruct (row !! k) as [[]|]; simpl; intros H; inversion H; subst;
    by rewrite ?py_not_eqb.
Qed.

Lemma rows_loop_fields E record fieldnames x xs rest t s f :
  rows_loop E record fieldnames (Fields (x :: xs) :: rest) t s f =
  (let row := dict_row fieldnames (x :: xs) in
   zip_code ← lift (py_strip (row_get row "zip"));
   email ← lift (py_strip (row_get row "email"));
   if py_not zip_code || py_not email then
     _ ← EmailRecord_create
           (failure_record record (py_or email "N/A") (py_or zip_code "N/A")
              "Missing zip code or email");
     rows_loop E record fieldnames rest (t + 1) s (f + 1)
   else
     success ← process_row E record zip_code email;
     if success : bool
     then rows_loop E record fieldnames rest (t + 1) (s + 1) f
     else rows_loop E record fieldnames rest (t + 1) s (f + 1)).
Proof. reflexivity. Qed.

(** The loop invariant: the counters follow the rows read so far, every
    row adds one RowRecord owned by [record], and nothing but the RowRecord
    table, the lookup log and the mail state changes. *)
Lemma rows_loop_spec E record fieldnames records :
  forall t s f w res w',
    rows_loop E record fieldnames records t s f w = (res, w') ->
    row_frame w w' /\
    exists new,
      email_records w' = (email_records w ++ new)%list /\
      Forall (fun r => processing_record r = pk record) new /\
      match res with
      | Ok (t', s', f') =>
          t' = t + row_count records /\
          s' + f' = s + f + row_count records /\
          s <= s' /\ s' - s <= present_count fieldnames records /\
          length new = length (data_rows records)
      | Raise _ => True
      end.
Proof.
  unfold row_count, present_count.
  induction records as [|ev rest IH]; intros t s f w res w' Hrun.
  - inversion Hrun; subst. split; [apply row_frame_refl|].
    exists []. rewrite app_nil_r. simpl. repeat split; auto; lia.
  - destruct ev as [[|x xs]|e].
    + simpl in Hrun. apply IH in Hrun. exact Hrun.
    + rewrite rows_loop_fields in Hrun. cbv zeta in Hrun. munfold.
      destruct (py_strip (row_get _ "zip")) as [z|e1] eqn:Hz.
      2: { inversion Hrun; subst. split; [apply row_frame_refl|].
           exists []. by rewrite app_nil_r. }
      destruct (py_strip (row_get _ "email")) as [e|e1] eqn:He.
      2: { inversion Hrun; subst. split; [apply row_frame_refl|].
           exists []. by rewrite app_nil_r. }
      destruct (py_not z || py_not e) eqn:Hmiss.
      * unfold EmailRecord_create in Hrun. apply IH in Hrun.
        destruct Hrun as (Hfr & new & Hnew & Hown & Hres).
        split; [frame_solve|].
        eexists (_ :: new). simpl in Hnew. rewrite <- app_assoc in Hnew.
        split; [exact Hnew|]. split; [constructor; [reflexivity|exact Hown]|].
        destruct res as [[[t' s'] f']|]; [|done]. simpl.
        destruct (present fieldnames (x :: xs)); simpl; lia.
      * destruct (process_row_shape E record z e w)
          as (b & r & w1 & Hrow & Hfr1 & Hrec & Hfk & Hb).
        rewrite Hrow in Hrun.
        assert (Hp : present fieldnames (x :: xs) = true).
        { unfold present.
          rewrite (field_present_strip _ _ _ Hz), (field_present_strip _ _ _ He).
          apply orb_false_elim in Hmiss as [-> ->]. reflexivity. }
        assert (Hgen : exists s1 f1,
                  rows_loop E record fieldnames rest (t + 1) s1 f1 w1 = (res, w')
                  /\ s <= s1 <= s + 1 /\ s1 + f1 = s + f + 1).
        { destruct b; eexists _, _; (split; [exact Hrun|]); lia. }
        destruct Hgen as (s1 & f1 & Hrun' & Hs1 & Hsum).
        apply IH in Hrun'. destruct Hrun' as (Hfr & new & Hnew & Hown & Hres).
        split; [eapply row_frame_trans; eassumption|].
        exists (r :: new). rewrite Hrec, <- app_assoc in Hnew.
        split; [exact Hnew|]. split; [constructor; assumption|].
        destruct res as [[[t' s'] f']|]; [|done]. simpl. rewrite Hp. simpl.
        lia.
    + simpl in Hrun. inversion Hrun; subst. split; [apply row_frame_refl|].
      exists []. by rewrite app_nil_r.
Qed.

(** ** One file *)

Lemma create_eq path w :
  CSVProcessingRecord_create path processing w
  = (Ok (fresh_record path w), created path w).
Proof. reflexivity. Qed.

Lemma move_to_processed_eq E path w :
  move_to_processed E path w =
  let w1 := set_clock_reads (S (clock_reads w)) w in
  match incoming w !! path, processed w with
  | Some content, Some dir =>
      match fs_rename E (S (clock_reads w)) path (new_filename E path w) with
      | Some e => (Raise e, w1)
      | None =>
          (Ok tt, set_dirs (delete path (incoming w))
                    (Some (<[new_filename E path w := content]> dir)) w1)
      end
  | _, _ => (Raise (Exn OSError "[Errno 2] No such file or directory"), w1)
  end.
Proof.
  unfold move_to_processed, datetime_now, shutil_move, new_filename. munfold.
  simpl. destruct (incoming w !! path); [|reflexivity].
  destruct (processed w); [|reflexivity].
  destruct (fs_rename _ _ _ _); reflexivity.
Qed.

Lemma process_single_csv_read_error E path w e w1 :
  read_rows E (fresh_record path w) path (created path w) = (Raise e, w1) ->
  process_single_csv E path w =
  (Ok tt, set_csv_records
            (fun t => <[next_pk w := failed_record (fresh_record path w)]> t) w1).
Proof.
  intros H. unfold process_single_csv. munfold.
  rewrite create_eq. simpl. rewrite H. reflexivity.
Qed.

Lemma process_single_csv_rows_ok E path w t s f w1 :
  read_rows E (fresh_record path w) path (created path w) = (Ok (t, s, f), w1) ->
  let r' := completed_record (fresh_record path w) t s f in
  let w2 := set_csv_records (fun tb => <[next_pk w := r']> tb) w1 in
  process_single_csv E path w =
  match move_to_processed E path w2 with
  | (Ok _, w3) => (Ok tt, w3)
  | (Raise _, w3) =>
      (Ok tt, set_csv_records (fun tb => <[next_pk w := failed_record r']> tb) w3)
  end.
Proof.
  intros H. unfold process_single_csv. munfold.
  rewrite create_eq. simpl. rewrite H. simpl. unfold save. simpl.
  destruct (move_to_processed E path _) as [[[]|e] w3]; reflexivity.
Qed.

Lemma read_rows_eq E record path w :
  read_rows E record path w =
  match incoming w !! path with
  | None =>
      (Raise (Exn OSError ("[Errno 2] No such file or directory: '"
                           ++ path ++ "'")), w)
  | Some (Unopenable e) => (Raise e, w)
  | Some (Text fieldnames records) =>
      rows_loop E record fieldnames records 0 0 0 w
  end.
Proof.
  unfold read_rows, open_csv. munfold.
  destruct (incoming w !! path) as [[e|fs rs]|]; reflexivity.
Qed.

(** Reading adds RowRecords owned by [record] and nothing else to the
    tables and directories; on success the counters add up to their
    number. *)
Lemma read_rows_spec E record path w res w' :
  read_rows E record path w = (res, w') ->
  row_frame w w' /\
  exists new,
    email_records w' = (email_records w ++ new)%list /\
    Forall (fun r => processing_record r = pk record) new /\
    match res with
    | Ok (t, s, f) => t = s + f /\ t = Z.of_nat (length new)
    | Raise _ => True
    end.
Proof.
  rewrite read_rows_eq. intros H.
  destruct (incoming w !! path) as [[e|fs rs]|].
  - inversion H; subst. split; [apply row_frame_refl|].
    exists []. by rewrite app_nil_r.
  - apply rows_loop_spec in H as (Hfr & new & Hnew & Hown & Hres).
    split; [exact Hfr|]. exists new. repeat split; try assumption.
    destruct res as [[[t s] f]|]; [|done]. unfold row_count in Hres. lia.
  - inversion H; subst. split; [apply row_frame_refl|].
    exists []. by rewrite app_nil_r.
Qed.

(** What [process_single_csv] does to the tables, whatever the file. *)
Lemma process_single_csv_spec E path w :
  exists r new w',
    process_single_csv E path w = (Ok tt, w') /\
    csv_records w' = <[next_pk w := r]> (csv_records w) /\
    next_pk w' = S (next_pk w) /\
    pk r = next_pk w /\
    email_records w' = (email_records w ++ new)%list /\
    Forall (fun e => processing_record e = next_pk w) new /\
    total_rows r = successful_rows r + failed_rows r /\
    total_rows r <= Z.of_nat (length new) /\
    (status r = completed -> total_rows r = Z.of_nat (length new)).
Proof.
  destruct (read_rows E (fresh_record path w) path (created path w))
    as [res w1] eqn:Hread.
  pose proof (read_rows_spec _ _ _ _ _ _ Hread)
    as ((Ht & Hpk & Hin & Hpr & Hck) & new & Hnew & Hown & Hres).
  simpl in Ht, Hpk, Hnew, Hown.
  destruct res as [[[t s] f]|e].
  - rewrite (process_single_csv_rows_ok _ _ _ _ _ _ _ Hread). cbv zeta.
    rewrite move_to_processed_eq. cbv zeta. simpl.
    destruct Hres as [Hsum Hlen].
    destruct (incoming w1 !! path) as [c|];
      [destruct (processed w1) as [d|];
       [destruct (fs_rename E _ path _) as [e|]|]|];
      eexists _, new, _; (split; [reflexivity|]); simpl;
      rewrite Ht, ?insert_insert_eq; repeat split; auto; simpl; try lia;
      discriminate.
  - rewrite (process_single_csv_read_error _ _ _ _ _ Hread).
    eexists _, new, _; (split; [reflexivity|]); simpl.
    rewrite Ht, insert_insert_eq. repeat split; auto; simpl; try lia;
      discriminate.
Qed.

(** ** Passes over the directory, and the invariant of the tables *)

Lemma process_single_csv_returns E path w :
  process_single_csv E path w = (Ok tt, (process_single_csv E path w).2).
Proof.
  destruct (process_single_csv_spec E path w) as (r & new & w' & -> & _).
  reflexivity.
Qed.

Lemma for_each_cons E path rest w :
  for_each (path :: rest) (process_single_csv E) w
  = for_each rest (process_single_csv E) (process_single_csv E path w).2.
Proof.
  simpl. munfold. by rewrite process_single_csv_returns.
Qed.

Lemma for_each_files E files :
  forall w,
    for_each files (process_single_csv E) w
    = (Ok tt, foldl (fun w p => (process_single_csv E p w).2) w files).
Proof.
  induction files as [|p rest IH]; intros w; [reflexivity|].
  rewrite for_each_cons, IH. reflexivity.
Qed.

Lemma owned_none l id :
  Forall (fun r => processing_record r <> id) l ->
  List.filter (fun r => Nat.eqb (processing_record r) id) l = [].
Proof.
  induction 1 as [|r l Hr _ IH]; simpl; [reflexivity|].
  apply Nat.eqb_neq in Hr. by rewrite Hr.
Qed.

Lemma owned_all l id :
  Forall (fun r => processing_record r = id) l ->
  List.filter (fun r => Nat.eqb (processing_record r) id) l = l.
Proof.
  induction 1 as [|r l Hr _ IH]; simpl; [reflexivity|].
  apply Nat.eqb_eq in Hr. rewrite Hr. by f_equal.
Qed.

Lemma db_inv_init w :
  csv_records w = ∅ -> next_pk w = 0%nat -> email_records w = [] -> db_inv w.
Proof.
  intros Ht Hn He. split.
  - intros id r. rewrite Ht, lookup_empty. discriminate.
  - rewrite He. constructor.
Qed.

Lemma db_inv_dirs i p w : db_inv w -> db_inv (set_dirs i p w).
Proof. intros H. exact H. Qed.

Lemma db_inv_clock n w : db_inv w -> db_inv (set_clock_reads n w).
Proof. intros H. exact H. Qed.

Lemma db_inv_file E path w :
  db_inv w -> db_inv (process_single_csv E path w).2.
Proof.
  intros [Hrec Hfk].
  destruct (process_single_csv_spec E path w)
    as (r & new & w' & -> & Ht & Hn & Hpk & He & Hown & Hsum & Hle & Hcomp).
  simpl.
  assert (Hold : List.filter (fun e => Nat.eqb (processing_record e) (next_pk w))
                   (email_records w) = []).
  { apply owned_none. eapply Forall_impl; [exact Hfk|]. simpl. lia. }
  split.
  - intros id r0. rewrite Ht. unfold record_ok, owned. rewrite He, Hn.
    rewrite List.filter_app.
    destruct (decide (id = next_pk w)) as [->|Hne].
    + rewrite lookup_insert_eq. intros [= <-].
      rewrite Hold, (owned_all _ _ Hown). simpl.
      repeat split; auto; try lia. intros Hc. symmetry. auto.
    + rewrite lookup_insert_ne by done. intros Hlk.
      destruct (Hrec _ _ Hlk) as (Hp & Hlt & Hterm & Hc).
      rewrite (owned_none new id), app_nil_r.
      2: { eapply Forall_impl; [exact Hown|]. simpl. congruence. }
      split; [exact Hp|]. split; [lia|]. split; [exact Hterm|exact Hc].
  - rewrite He, Hn. apply Forall_app. split.
    + eapply Forall_impl; [exact Hfk|]. simpl. lia.
    + eapply Forall_impl; [exact Hown|]. simpl. lia.
Qed.

Lemma db_inv_files E files :
  forall w, db_inv w ->
    db_inv (foldl (fun w p => (process_single_csv E p w).2) w files).
Proof.
  induction files as [|p rest IH]; intros w H; [exact H|].
  simpl. apply IH, db_inv_file, H.
Qed.

Lemma db_inv_pass E w : db_inv w -> db_inv (process_csv_files E w).2.
Proof.
  intros H. unfold process_csv_files.
  destruct (glob_csv (incoming w)) as [|p rest] eqn:Hglob;
    unfold datetime_now; munfold.
  - exact H.
  - rewrite for_each_files. cbn [snd]. apply db_inv_files, db_inv_clock, H.
Qed.

Lemma reachable_inv w : reachable w -> db_inv w.
Proof.
  induction 1 as [w Ht Hn He|E path w _ IH|E w _ IH|i p w _ IH].
  - by apply db_inv_init.
  - by apply db_inv_file.
  - by apply db_inv_pass.
  - by apply db_inv_dirs.
Qed.

(** ** Names and timestamps *)

Lemma string_app_cons (x : ascii) (a b : string) :
  String x a ++ b = String x (a ++ b).
Proof. reflexivity. Qed.

Lemma string_app_assoc (a b c : string) : (a ++ b) ++ c = a ++ b ++ c.
Proof.
  induction a as [|x a IH]; [reflexivity|].
  by rewrite !string_app_cons, IH.
Qed.

Lemma string_app_nil_r (a : string) : a ++ "" = a.
Proof.
  induction a as [|x a IH]; [reflexivity|].
  by rewrite string_app_cons, IH.
Qed.

Lemma string_length_app (a b : string) :
  String.length (a ++ b) = (String.length a + String.length b)%nat.
Proof.
  induction a as [|x a IH]; [reflexivity|].
  rewrite string_app_cons. simpl. by rewrite IH.
Qed.

Lemma all_digits_app (a b : string) :
  all_digits (a ++ b) = all_digits a && all_digits b.
Proof.
  unfold all_digits. induction a as [|x a IH]; [reflexivity|].
  rewrite string_app_cons. simpl. by rewrite IH, andb_assoc.
Qed.

Lemma substring_all (s : string) : substring 0 (String.length s) s = s.
Proof. induction s as [|c s IH]; simpl; [reflexivity|]. by rewrite IH. Qed.

Lemma substring_split (s : string) :
  forall i, (i <= String.length s)%nat ->
    substring 0 i s ++ substring i (String.length s - i) s = s.
Proof.
  induction s as [|c s IH]; intros [|i] Hi; simpl in *.
  - reflexivity.
  - lia.
  - by rewrite substring_all.
  - rewrite string_app_cons, IH by lia. reflexivity.
Qed.

Lemma stem_suffix (name : string) : Path.stem name ++ Path.suffix name = name.
Proof.
  unfold Path.stem, Path.suffix, Path.split_at.
  destruct (Path.rfind_dot name) as [i|]; simpl.
  2: { apply string_app_nil_r. }
  destruct (_ && _)%nat eqn:Hi.
  - apply substring_split. apply andb_prop in Hi as [_ Hi].
    apply Nat.ltb_lt in Hi. lia.
  - apply string_app_nil_r.
Qed.

Lemma pad_below width bound :
  forallb (padded width) (seq 0 (Z.to_nat bound)) = true ->
  forall n, 0 <= n < bound ->
    String.length (pad width n) = width /\ all_digits (pad width n) = true.
Proof.
  intros Hall n Hn. rewrite forallb_forall in Hall.
  specialize (Hall (Z.to_nat n)). unfold padded in Hall.
  rewrite andb_true_iff, Nat.eqb_eq in Hall. apply Hall.
  apply in_seq. lia.
Qed.

Lemma pad2 n : 0 <= n < 100 ->
  String.length (pad 2 n) = 2%nat /\ all_digits (pad 2 n) = true.
Proof. apply pad_below. vm_compute. reflexivity. Qed.

Lemma padded_from_spec width fuel :
  forall digits,
    padded_from width fuel digits = true ->
    forall k, (k < fuel)%nat ->
      let s := zfill width (NilEmpty.string_of_uint
                              (Decimal.rev (Nat.to_little_uint k digits))) in
      String.length s = width /\ all_digits s = true.
Proof.
  induction fuel as [|fuel IH]; intros digits Hall k Hk; [lia|].
  simpl in Hall. apply andb_prop in Hall as [Hhead Hrest].
  destruct k as [|k].
  - apply andb_prop in Hhead as [Hlen Hdig]. apply Nat.eqb_eq in Hlen.
    simpl. auto.
  - simpl. apply (IH _ Hrest). lia.
Qed.

Lemma pad4 n : 0 <= n < 10000 ->
  String.length (pad 4 n) = 4%nat /\ all_digits (pad 4 n) = true.
Proof.
  intros Hn.
  apply (padded_from_spec 4 (Z.to_nat 10000) Decimal.zero); [|lia].
  vm_compute. reflexivity.
Qed.

Lemma strftime_stamp_shape d : valid d -> is_timestamp (strftime_stamp d).
Proof.
  intros (Hy & Hm & Hd & HH & HM & HS).
  destruct (pad4 (year d)) as [Ly Dy]; [lia|].
  destruct (pad2 (month d)) as [Lm Dm]; [lia|].
  destruct (pad2 (day d)) as [Ld Dd]; [lia|].
  destruct (pad2 (hour d)) as [LH DH]; [lia|].
  destruct (pad2 (minute d)) as [LM DM]; [lia|].
  destruct (pad2 (second d)) as [LS DS]; [lia|].
  exists (pad 4 (year d) ++ pad 2 (month d) ++ pad 2 (day d)),
         (pad 2 (hour d) ++ pad 2 (minute d) ++ pad 2 (second d)).
  unfold strftime_stamp.
  rewrite !string_length_app, !all_digits_app, !string_app_assoc.
  rewrite Ly, Lm, Ld, LH, LM, LS, Dy, Dm, Dd, DH, DM, DS.
  repeat split; reflexivity.
Qed.






(** ** Rows of a file without a zip or email column *)

Lemma restval_lookup ks :
  forall (d : gmap string pyval) k,
    k ∉ ks -> foldl (fun d k => <[k := PNone]> d) d ks !! k = d !! k.
Proof.
  induction ks as [|k' ks IH]; intros d k Hk; simpl; [reflexivity|].
  apply not_elem_of_cons in Hk as [Hne Hk].
  rewrite IH by exact Hk. by rewrite lookup_insert_ne.
Qed.

Lemma zip_into_absent fieldnames :
  forall row (d : gmap string pyval) k,
    k ∉ fieldnames -> zip_into d fieldnames row !! k = d !! k.
Proof.
  induction fieldnames as [|k' ks IH]; intros row d k Hk.
  - by destruct row.
  - destruct row as [|x xs].
    + apply (restval_lookup (k' :: ks)), Hk.
    + apply not_elem_of_cons in Hk as [Hne Hk]. simpl.
      rewrite IH by exact Hk. by rewrite lookup_insert_ne.
Qed.







(** ** The lookup adapter *)

Lemma raise_for_status_ok r :
  status_code r < 400 \/ 600 <= status_code r -> raise_for_status r = Ok tt.
Proof.
  intros H. unfold raise_for_status.
  destruct (400 <=? status_code r) eqn:H4, (status_code r <? 500) eqn:H5,
    (500 <=? status_code r) eqn:H6, (status_code r <? 600) eqn:H7;
    try reflexivity; lia.
Qed.

Lemma raise_for_status_error r :
  400 <= status_code r < 600 ->
  raise_for_status r =
  Raise (Exn RequestException
           (http_error_msg (if status_code r <? 500 then "Client" else "Server") r)).
Proof.
  intros H. unfold raise_for_status.
  destruct (400 <=? status_code r) eqn:H4, (status_code r <? 500) eqn:H5,
    (500 <=? status_code r) eqn:H6, (status_code r <? 600) eqn:H7;
    try reflexivity; lia.
Qed.

Lemma has_places_zero data : zero_places data = true -> has_places data = Ok false.
Proof.
  unfold zero_places, has_places, py_in, getitem_str, py_len.
  destruct data as [| | | |s|l|items]; try discriminate; munfold.
  - intros H. apply negb_true_iff in H. by rewrite H.
  - intros H. apply negb_true_iff in H. by rewrite H.
  - destruct (assoc "places" items) as [v|] eqn:Hp.
    + rewrite bool_decide_eq_true_2 by eauto.
      destruct v as [| | | |[|c s]|[|x l]|[|kv l]]; try discriminate;
        intros _; reflexivity.
    + intros _. rewrite bool_decide_eq_false_2; [reflexivity|].
      intros [? ?]; discriminate.
Qed.

(** A transport error, a 4xx and a 5xx answer all leave the adapter as one
    exception built around the text of the cause. *)
Lemma get_location_failure E zip_code w detail :
  lookup_failure E zip_code w detail ->
  get_location_from_zip E zip_code w =
  (Raise (Exn PlainException ("API error for ZIP " ++ zip_code ++ ": " ++ detail)),
   logged E zip_code w).
Proof.
  unfold lookup_failure, next_outcome, get_location_from_zip, requests_get, logged.
  intros [H|(r & H & Hcode & ->)]; munfold; rewrite H; simpl; [reflexivity|].
  by rewrite (raise_for_status_error r Hcode).
Qed.

(** ** The two scenarios of the specification *)

(** Rows ("90210","a@x.com"), ("","b@x.com"), ("10001","") with a lookup
    that always succeeds: three rows, one success, two failures, one
    message, and the file moved. *)
Example scenario_three_rows :
  let E := Examples.service 200 "OK" (Some Examples.beverly_hills) in
  let run := handle_once E (Examples.start {["input.csv" := Examples.scenario]}) in
  run.1 = Ok tt /\
  csv_records run.2 !! 0%nat
  = Some {| pk := 0; filename := "input.csv"; total_rows := 3;
            successful_rows := 1; failed_rows := 2; status := completed |} /\
  length (outbox run.2) = 1%nat /\
  incoming run.2 = ∅ /\
  processed run.2 = Some {["input_20240115_093000.csv" := Examples.scenario]}.
Proof.
  intros E run.
  split; [vm_compute; reflexivity|]. split; [vm_compute; reflexivity|].
  split; [vm_compute; reflexivity|]. split; vm_compute; reflexivity.
Qed.

(** An empty incoming directory: no record is created. *)
Example scenario_empty_directory :
  let E := Examples.service 200 "OK" (Some Examples.beverly_hills) in
  let run := handle_once E (Examples.start ∅) in
  run.1 = Ok tt /\ csv_records run.2 = ∅ /\ email_records run.2 = [].
Proof.
  intros E run.
  split; [vm_compute; reflexivity|]. split; vm_compute; reflexivity.
Qed.

(** ** The claims *)

(** C1. When a file is processed to completion (no exception reaches the
    handler of [process_single_csv], so its record ends as completed), the
    saved record has [total_rows] = N, the number of data rows;
    [successful_rows + failed_rows] = N; and [failed_rows] >= N - M, where M
    counts the rows whose zip and email are both strings that are not
    empty once trimmed. *)
Theorem C1_row_counts E path w fieldnames records r :
  incoming w !! path = Some (Text fieldnames records) ->
  csv_records (process_single_csv E path w).2 !! next_pk w = Some r ->
  status r = completed ->
  total_rows r = row_count records /\
  successful_rows r + failed_rows r = row_count records /\
  failed_rows r >= row_count records - present_count fieldnames records.
Proof.
  intros Hfile Hrec Hst.
  destruct (read_rows E (fresh_record path w) path (created path w))
    as [res w1] eqn:Hread.
  pose proof Hread as Hloop. rewrite read_rows_eq in Hloop.
  change (incoming (created path w)) with (incoming w) in Hloop.
  rewrite Hfile in Hloop.
  apply rows_loop_spec in Hloop as ((Ht & _) & new & _ & _ & Hres).
  destruct res as [[[t s] f]|e].
  - rewrite (process_single_csv_rows_ok _ _ _ _ _ _ _ Hread) in Hrec.
    cbv zeta in Hrec. rewrite move_to_processed_eq in Hrec. cbv zeta in Hrec.
    simpl in Hrec.
    destruct (incoming w1 !! path);
      [destruct (processed w1); [destruct (fs_rename E _ path _)|]|];
      simpl in Hrec; rewrite ?insert_insert_eq, lookup_insert_eq in Hrec;
      injection Hrec as <-; try discriminate Hst.
    simpl. lia.
  - rewrite (process_single_csv_read_error _ _ _ _ _ Hread) in Hrec.
    simpl in Hrec. rewrite lookup_insert_eq in Hrec. injection Hrec as <-.
    discriminate Hst.
Qed.

Lemma C1_witness :
  let r := {| pk := 0; filename := "input.csv"; total_rows := 3;
              successful_rows := 1; failed_rows := 2; status := completed |} in
  total_rows r = row_count [Fields ["90210"; "a@x.com"]; Fields [""; "b@x.com"];
                            Fields ["10001"; ""]] /\
  successful_rows r + failed_rows r = 3 /\
  failed_rows r >= 3 - 1.
Proof.
  intros r.
  apply (C1_row_counts (Examples.service 200 "OK" (Some Examples.beverly_hills))
           "input.csv" (Examples.start {["input.csv" := Examples.scenario]})
           ["zip"; "email"]
           [Fields ["90210"; "a@x.com"]; Fields [""; "b@x.com"];
            Fields ["10001"; ""]] r);
    vm_compute; reflexivity.
Defined.

(** C2 (as amended).  In every reachable world, a ProcessingRecord with a
    terminal status has [total_rows = successful_rows + failed_rows] and
    owns at least [total_rows] RowRecords; when the status is completed it
    owns exactly [total_rows] of them. *)
Theorem C2_terminal_counts w id r :
  reachable w ->
  csv_records w !! id = Some r ->
  terminal (status r) = true ->
  total_rows r = successful_rows r + failed_rows r /\
  total_rows r <= Z.of_nat (length (owned w id)) /\
  (status r = completed -> Z.of_nat (length (owned w id)) = total_rows r).
Proof.
  intros Hreach Hrec Hterm.
  destruct (reachable_inv w Hreach) as [Hinv _].
  destruct (Hinv id r Hrec) as (_ & _ & Ht & Hc).
  destruct (Ht Hterm). auto.
Qed.

Lemma C2_witness :
  let E := Examples.service 200 "OK" (Some Examples.beverly_hills) in
  let w := (process_single_csv E "input.csv"
              (Examples.start {["input.csv" := Examples.scenario]})).2 in
  let r := {| pk := 0; filename := "input.csv"; total_rows := 3;
              successful_rows := 1; failed_rows := 2; status := completed |} in
  total_rows r = successful_rows r + failed_rows r /\
  total_rows r <= Z.of_nat (length (owned w 0)) /\
  (status r = completed -> Z.of_nat (length (owned w 0)) = total_rows r).
Proof.
  intros E w r.
  apply (C2_terminal_counts w 0%nat r).
  - apply reach_file, reach_init; reflexivity.
  - vm_compute. reflexivity.
  - reflexivity.
Defined.

(** C2, as stated, fails: a file whose second row raises leaves a failed
    record with [total_rows] 0 that owns the RowRecord of the first row. *)
Lemma C2_counterexample :
  let E := Examples.service 200 "OK" (Some Examples.beverly_hills) in
  let w := (process_single_csv E "input.csv"
              (Examples.start {["input.csv" := Examples.short_row]})).2 in
  reachable w /\
  exists r, csv_records w !! 0%nat = Some r /\ status r = failed /\
            total_rows r = 0 /\ length (owned w 0) = 1%nat.
Proof.
  intros E w. split.
  - apply reach_file, reach_init; reflexivity.
  - eexists. vm_compute. repeat split.
Qed.




(** C4 (as amended).  When the answer of the lookup service has a 2xx
    status and a JSON body in which the adapter's test finds no place entry
    (an object without "places", or whose "places" is an empty list, string
    or object; an array or a string in which "places" does not occur), the
    adapter returns ("Unknown", "Unknown") and raises nothing. *)
Theorem C4_no_places E zip_code w r data :
  next_outcome E zip_code w = Response r ->
  200 <= status_code r < 300 ->
  json_body r = Some data ->
  zero_places data = true ->
  get_location_from_zip E zip_code w
  = (Ok (PStr "Unknown", PStr "Unknown"), logged E zip_code w).
Proof.
  intros Hout Hcode Hbody Hzero.
  unfold get_location_from_zip, requests_get, logged, next_outcome in *.
  munfold. rewrite Hout. simpl.
  rewrite (raise_for_status_ok r) by lia. unfold response_json.
  rewrite Hbody. simpl. by rewrite (has_places_zero data Hzero).
Qed.

Lemma C4_witness :
  let E := Examples.service 200 "OK" (Some Examples.no_places) in
  get_location_from_zip E "00000" (Examples.start ∅)
  = (Ok (PStr "Unknown", PStr "Unknown"), logged E "00000" (Examples.start ∅)).
Proof.
  intros E.
  apply (C4_no_places E "00000" (Examples.start ∅)
           {| status_code := 200; reason := "OK";
              resp_url := "https://api.zippopotam.us/us/00000";
              json_body := Some Examples.no_places;
              json_error := Examples.not_json |} Examples.no_places).
  - reflexivity.
  - simpl. lia.
  - reflexivity.
  - reflexivity.
Defined.

(** C4, as stated, fails for valid JSON without place entries on which the
    adapter's test itself raises: for an object whose "places" is null
    [len] raises, for the body null the membership test does.  Both
    answers have status 200, and the TypeError leaves the adapter. *)
Lemma C4_counterexample :
  let w := Examples.start ∅ in
  let E := Examples.service 200 "OK" (Some Cases.null_places) in
  let E' := Examples.service 200 "OK" (Some PNone) in
  (exists r, next_outcome E "00000" w = Response r /\
             status_code r = 200 /\ json_body r = Some Cases.null_places) /\
  (get_location_from_zip E "00000" w).1
  = Raise (Exn TypeError "object of type 'NoneType' has no len()") /\
  (exists r, next_outcome E' "00000" w = Response r /\
             status_code r = 200 /\ json_body r = Some PNone) /\
  (get_location_from_zip E' "00000" w).1
  = Raise (Exn TypeError "argument of type 'NoneType' is not iterable").
Proof.
  intros w E E'.
  split; [eexists; split; [reflexivity|split; reflexivity]|].
  split; [vm_compute; reflexivity|].
  split; [eexists; split; [reflexivity|split; reflexivity]|].
  vm_compute; reflexivity.
Qed.

(** C5 (as amended).  When the lookup fails with a transport error or with
    a 4xx or 5xx status, the adapter raises one exception whose message is
    "API error for ZIP <code>: <detail>", <detail> being the text of the
    cause. *)
Theorem C5_normalized_failure E zip_code w detail :
  lookup_failure E zip_code w detail ->
  exists e,
    get_location_from_zip E zip_code w = (Raise e, logged E zip_code w) /\
    exn_str e = "API error for ZIP " ++ zip_code ++ ": " ++ detail.
Proof.
  intros H. eexists. split; [apply get_location_failure, H|reflexivity].
Qed.

Lemma C5_witness :
  exists e,
    get_location_from_zip Examples.offline "90210" (Examples.start ∅)
    = (Raise e, logged Examples.offline "90210" (Examples.start ∅)) /\
    exn_str e = "API error for ZIP 90210: Connection refused".
Proof.
  apply (C5_normalized_failure Examples.offline "90210" (Examples.start ∅)
           "Connection refused").
  left. reflexivity.
Defined.

(** C5, as stated, fails for a status that is neither 2xx nor an error
    for [raise_for_status]: a 300 answer with a JSON body is read like a
    200 one, and the adapter returns. *)
Lemma C5_counterexample :
  let E := Examples.service 300 "Multiple Choices" (Some Examples.no_places) in
  exists r, next_outcome E "90210" (Examples.start ∅) = Response r /\
            ~ (200 <= status_code r < 300) /\
            (get_location_from_zip E "90210" (Examples.start ∅)).1
            = Ok (PStr "Unknown", PStr "Unknown").
Proof.
  intros E. eexists. split; [reflexivity|]. split; [simpl; lia|].
  vm_compute. reflexivity.
Qed.



(** C7 (as amended).  When the lookup for a row returns and the mail
    backend accepts the message, [process_row] returns True, exactly one
    message is delivered, to the row's address, and exactly one RowRecord
    is added, with success true and with state and city holding what the
    lookup returned as their columns store it: a string as it is, None as
    NULL, any other value as the text [str] gives.  So state (city) is
    NULL exactly when the lookup returned None for it. *)
Theorem C7_successful_row E record zip_code email w st ci w1 :
  get_location_from_zip E zip_code w = (Ok (st, ci), w1) ->
  let m := {| subject := "Location Information for ZIP " ++ zip_code;
              body_zip := zip_code; body_city := ci; body_state := st;
              from_email := default "noreply@example.com" (DEFAULT_FROM_EMAIL E);
              recipient_list := [email] |} in
  let r := {| processing_record := pk record; email_address := email;
              zip_code := zip_code;
              state := to_python st; city := to_python ci;
              success := true; error_message := None |} in
  smtp_send E (mail_calls w1) m = None ->
  exists w',
    process_row E record zip_code email w = (Ok true, w') /\
    outbox w' = (outbox w ++ [m])%list /\
    email_records w' = (email_records w ++ [r])%list /\
    (state r = PNone <-> st = PNone) /\
    (city r = PNone <-> ci = PNone) /\
    (forall s, st = PStr s -> state r = PStr s) /\
    (forall s, ci = PStr s -> city r = PStr s) /\
    (st <> PNone -> exists s, state r = PStr s) /\
    (ci <> PNone -> exists s, city r = PStr s).
Proof.
  intros Hloc m r Hsend.
  destruct (get_location_logs E zip_code w) as [res Hlog].
  rewrite Hloc in Hlog. injection Hlog as _ ->.
  unfold process_row. munfold. rewrite Hloc. simpl.
  unfold send_email_to_address, send_mail. fold m. rewrite Hsend. simpl.
  eexists. split; [reflexivity|]. split; [reflexivity|].
  split; [reflexivity|]. subst r. simpl.
  split; [destruct st; simpl; split; (discriminate || reflexivity)|].
  split; [destruct ci; simpl; split; (discriminate || reflexivity)|].
  split; [by intros s ->|]. split; [by intros s ->|].
  split; [destruct st; simpl; eauto; done|destruct ci; simpl; eauto; done].
Qed.

Lemma C7_witness :
  let E := Examples.service 200 "OK" (Some Cases.numeric_state) in
  let m := {| subject := "Location Information for ZIP 10001";
              body_zip := "10001"; body_city := PStr "New York";
              body_state := PInt 36;
              from_email := "webmaster@localhost";
              recipient_list := ["a@x.com"] |} in
  let r := {| processing_record := 0; email_address := "a@x.com";
              zip_code := "10001"; state := PStr "36";
              city := PStr "New York";
              success := true; error_message := None |} in
  exists w',
    process_row E Examples.a_record "10001" "a@x.com" (Examples.start ∅)
    = (Ok true, w') /\
    outbox w' = [m] /\ email_records w' = [r].
Proof.
  intros E m r.
  destruct (C7_successful_row E Examples.a_record "10001" "a@x.com"
              (Examples.start ∅) (PInt 36) (PStr "New York")
              (logged E "10001" (Examples.start ∅)))
    as (w' & Hrun & Hout & Hrec & _).
  - vm_compute. reflexivity.
  - reflexivity.
  - exists w'. split; [exact Hrun|]. split; [exact Hout|exact Hrec].
Defined.

(** C7, as stated, fails on "non-null": a place entry with explicit nulls
    is a successful lookup, the mail is sent and the RowRecord, with
    success true, has NULL state and city. *)
Lemma C7_counterexample :
  let E := Examples.service 200 "OK" (Some Examples.null_place) in
  let run := process_row E Examples.a_record "90210" "a@x.com"
               (Examples.start ∅) in
  (get_location_from_zip E "90210" (Examples.start ∅)).1 = Ok (PNone, PNone) /\
  run.1 = Ok true /\ length (outbox run.2) = 1%nat /\
  exists r, email_records run.2 = [r] /\ success r = true /\
            state r = PNone /\ city r = PNone.
Proof.
  intros E run. split; [vm_compute; reflexivity|].
  split; [vm_compute; reflexivity|]. split; [vm_compute; reflexivity|].
  eexists. vm_compute. repeat split.
Qed.





(** C10.  The code at a failing input: the header has no zip column and
    the only row stops before the email column.  The cell under email is
    None, trimming it raises in the loop, and the file fails as a whole:
    the record ends as failed with no row counted, no RowRecord is
    written and the file stays in the incoming directory, where the claim
    has a missing-data RowRecord, a completed record with [failed_rows] 1
    and the file moved. *)
Lemma C10_short_row_fails_file :
  let E := Examples.service 200 "OK" (Some Examples.beverly_hills) in
  let w := Examples.start {["people.csv" := Examples.no_zip_short_row]} in
  let w' := (process_single_csv E "people.csv" w).2 in
  incoming w !! "people.csv" = Some (Text ["name"; "email"] [Fields ["bob"]]) /\
  ("zip" ∉ ["name"; "email"]) /\
  (exists r, csv_records w' !! 0%nat = Some r /\ status r = failed /\
             failed_rows r = 0) /\
  email_records w' = [] /\
  incoming w' !! "people.csv" = Some Examples.no_zip_short_row /\
  processed w' = Some ∅.
Proof.
  intros E w w'. split; [vm_compute; reflexivity|].
  split.
  { intros H. apply list_elem_of_In in H. simpl in H. intuition discriminate. }
  split; [eexists; vm_compute; repeat split|].
  split; [vm_compute; reflexivity|].
  split; vm_compute; reflexivity.
Qed.

(** ** Further properties of the command *)

(** *** One row *)

Lemma process_row_effects E record zip_code email w :
  exists b r w',
    process_row E record zip_code email w = (Ok b, w') /\
    row_frame w w' /\
    http_log w' = (http_log w ++ [ZIP_API_URL E zip_code])%list /\
    email_records w' = (email_records w ++ [r])%list /\
    Models.zip_code r = zip_code /\ email_address r = email /\
    processing_record r = pk record /\ success r = b /\
    length (outbox w') = (length (outbox w) + (if b then 1 else 0))%nat.
Proof.
  unfold process_row. munfold.
  destruct (get_location_logs E zip_code w) as [res ->].
  destruct res as [[st ci]|e]; simpl.
  - unfold send_email_to_address, send_mail. simpl.
    destruct (smtp_send _ _ _) as [e|]; simpl;
      eexists _, _, _; (split; [reflexivity|]); simpl;
      (split; [frame_solve|]); rewrite ?length_app; simpl;
      repeat split; lia.
  - eexists _, _, _; (split; [reflexivity|]); simpl.
    split; [frame_solve|]. repeat split; lia.
Qed.

Lemma trimmed_strip fieldnames row k s :
  py_strip (row_get (dict_row fieldnames row) k) = Ok s ->
  trimmed fieldnames row k = s.
Proof.
  unfold trimmed, py_strip.
  destruct (row_get _ k); intros H; inversion H; reflexivity.
Qed.

(** What the loop does besides counting, when it reaches the end of the
    file. *)
Lemma rows_loop_trace E record fieldnames records :
  forall t s f w t' s' f' w',
    rows_loop E record fieldnames records t s f w = (Ok (t', s', f'), w') ->
    http_log w' =
      (http_log w ++ map (lookup_url E fieldnames)
                       (List.filter (present fieldnames) (data_rows records)))%list /\
    Z.of_nat (length (outbox w')) = Z.of_nat (length (outbox w)) + (s' - s) /\
    exists new,
      email_records w' = (email_records w ++ new)%list /\
      map (fun r => (Models.zip_code r, email_address r)) new
      = map (recorded_as fieldnames) (data_rows records).
Proof.
  induction records as [|ev rest IH]; intros t s f w t' s' f' w' Hrun.
  - inversion Hrun; subst. simpl. rewrite app_nil_r.
    split; [reflexivity|]. split; [lia|]. exists []. by rewrite app_nil_r.
  - destruct ev as [[|x xs]|e]; [exact (IH _ _ _ _ _ _ _ _ Hrun)| |discriminate].
    rewrite rows_loop_fields in Hrun. cbv zeta in Hrun. munfold.
    change (data_rows (Fields (x :: xs) :: rest))
      with ((x :: xs) :: data_rows rest).
    destruct (py_strip (row_get _ "zip")) as [z|e1] eqn:Hz; [|discriminate].
    destruct (py_strip (row_get _ "email")) as [e|e1] eqn:He; [|discriminate].
    assert (Hrec : recorded_as fieldnames (x :: xs)
                   = (py_or z "N/A", py_or e "N/A")).
    { unfold recorded_as.
      by rewrite (trimmed_strip _ _ _ _ Hz), (trimmed_strip _ _ _ _ He). }
    assert (Hp : present fieldnames (x :: xs)
                 = negb (py_not z || py_not e)).
    { unfold present.
      rewrite (field_present_strip _ _ _ Hz), (field_present_strip _ _ _ He).
      by destruct (py_not z), (py_not e). }
    cbn [List.filter map]. rewrite Hp, Hrec.
    destruct (py_not z || py_not e) eqn:Hmiss.
    + unfold EmailRecord_create in Hrun.
      apply IH in Hrun as (Hlog & Hout & new & Hnew & Hmap). simpl in *.
      split; [exact Hlog|]. split; [lia|].
      eexists (_ :: new). rewrite <- app_assoc in Hnew.
      split; [exact Hnew|]. simpl. by rewrite Hmap.
    + destruct (process_row_effects E record z e w)
        as (b & r & w1 & Hrow & _ & Hlog1 & Hrec1 & Hzip & Hem & _ & _ & Hout1).
      rewrite Hrow in Hrun.
      apply orb_false_elim in Hmiss as [Hnz Hne].
      assert (Hgen : exists s1 f1,
                rows_loop E record fieldnames rest (t + 1) s1 f1 w1
                = (Ok (t', s', f'), w')
                /\ s1 = s + (if b then 1 else 0)).
      { destruct b; eexists _, _; (split; [exact Hrun|]); lia. }
      destruct Hgen as (s1 & f1 & Hrun' & Hs1).
      apply IH in Hrun' as (Hlog & Hout & new & Hnew & Hmap).
      simpl. unfold lookup_url at 1.
      rewrite (trimmed_strip _ _ _ _ Hz).
      split; [rewrite Hlog, Hlog1, <- app_assoc; reflexivity|].
      split; [rewrite Hout, Hout1; destruct b; lia|].
      exists (r :: new). rewrite Hrec1, <- app_assoc in Hnew.
      split; [exact Hnew|]. simpl. rewrite Hmap, Hzip, Hem.
      unfold py_or. by rewrite Hnz, Hne.
Qed.

Lemma rows_loop_first_error E record fieldnames records :
  forall t s f w,
    match (rows_loop E record fieldnames records t s f w).1 with
    | Ok _ => first_error fieldnames records = None
    | Raise e => first_error fieldnames records = Some e
    end.
Proof.
  induction records as [|ev rest IH]; intros t s f w; [reflexivity|].
  destruct ev as [[|x xs]|e]; [exact (IH t s f w)| |reflexivity].
  rewrite rows_loop_fields. cbv zeta. munfold.
  change (first_error fieldnames (Fields (x :: xs) :: rest))
    with (match py_strip (row_get (dict_row fieldnames (x :: xs)) "zip"),
                py_strip (row_get (dict_row fieldnames (x :: xs)) "email") with
          | Raise e, _ => Some e
          | Ok _, Raise e => Some e
          | Ok _, Ok _ => first_error fieldnames rest
          end).
  destruct (py_strip (row_get _ "zip")) as [z|e1]; [|reflexivity].
  destruct (py_strip (row_get _ "email")) as [e|e1]; [|reflexivity].
  destruct (py_not z || py_not e).
  - unfold EmailRecord_create. apply IH.
  - destruct (process_row_shape E record z e w) as (b & r & w1 & -> & _).
    destruct b; apply IH.
Qed.

(** X1.  Whether the row loop raises, and what, is decided by the content
    of the file alone: it ends normally exactly when [first_error] finds
    nothing, and otherwise raises the exception [first_error] names.  No
    answer of the lookup service or of the mail backend makes a file
    fail. *)
Theorem rows_loop_fails_by_content E record fieldnames records t s f w :
  match (rows_loop E record fieldnames records t s f w).1 with
  | Ok _ => first_error fieldnames records = None
  | Raise e => first_error fieldnames records = Some e
  end.
Proof. apply rows_loop_first_error. Qed.

(** X2.  When the rows of a file are read to the end, the lookups issued
    are, in file order, one per row whose zip and email are both present,
    each for the trimmed zip of its row; and the messages delivered are as
    many as the rows counted as successful. *)
Theorem read_rows_lookups_and_mail E record path w fieldnames records t s f w' :
  incoming w !! path = Some (Text fieldnames records) ->
  read_rows E record path w = (Ok (t, s, f), w') ->
  http_log w' =
    (http_log w ++ map (lookup_url E fieldnames)
                     (List.filter (present fieldnames) (data_rows records)))%list /\
  Z.of_nat (length (outbox w')) = Z.of_nat (length (outbox w)) + s.
Proof.
  intros Hfile Hrun. rewrite read_rows_eq, Hfile in Hrun.
  apply rows_loop_trace in Hrun as (Hlog & Hout & _).
  split; [exact Hlog|lia].
Qed.

Lemma read_rows_lookups_and_mail_witness :
  let E := Examples.service 200 "OK" (Some Examples.beverly_hills) in
  let w := Examples.start {["input.csv" := Examples.scenario]} in
  let w' := (read_rows E Examples.a_record "input.csv" w).2 in
  http_log w' = ["https://api.zippopotam.us/us/90210"] /\
  Z.of_nat (length (outbox w')) = 1.
Proof.
  intros E w.
  apply (read_rows_lookups_and_mail E Examples.a_record "input.csv" w
           ["zip"; "email"]
           [Fields ["90210"; "a@x.com"]; Fields [""; "b@x.com"];
            Fields ["10001"; ""]] 3 1 2).
  - vm_compute. reflexivity.
  - vm_compute. reflexivity.
Defined.

(** X3.  When the rows of a file are read to the end, the RowRecords added
    are one per data row, in file order, each under the trimmed zip and
    email of its row, with "N/A" in place of an empty one. *)
Theorem read_rows_records_in_order E record path w fieldnames records t s f w' :
  incoming w !! path = Some (Text fieldnames records) ->
  read_rows E record path w = (Ok (t, s, f), w') ->
  exists new,
    email_records w' = (email_records w ++ new)%list /\
    map (fun r => (Models.zip_code r, email_address r)) new
    = map (recorded_as fieldnames) (data_rows records).
Proof.
  intros Hfile Hrun. rewrite read_rows_eq, Hfile in Hrun.
  apply rows_loop_trace in Hrun as (_ & _ & Hnew). exact Hnew.
Qed.

Lemma read_rows_records_in_order_witness :
  let E := Examples.service 200 "OK" (Some Examples.beverly_hills) in
  let w := Examples.start {["input.csv" := Examples.scenario]} in
  let w' := (read_rows E Examples.a_record "input.csv" w).2 in
  exists new,
    email_records w' = new /\
    map (fun r => (Models.zip_code r, email_address r)) new
    = [("90210", "a@x.com"); ("N/A", "b@x.com"); ("10001", "N/A")].
Proof.
  intros E w.
  apply (read_rows_records_in_order E Examples.a_record "input.csv" w
           ["zip"; "email"]
           [Fields ["90210"; "a@x.com"]; Fields [""; "b@x.com"];
            Fields ["10001"; ""]] 3 1 2).
  - vm_compute. reflexivity.
  - vm_compute. reflexivity.
Defined.

(** X4.  When the lookup for a row succeeds and the mail backend raises,
    [process_row] returns False after adding one RowRecord with success
    false, the text of the mail exception as error message and no state or
    city (the location just resolved is dropped); nothing is delivered. *)
Theorem process_row_mail_failure E record zip_code email w st ci w1 e :
  get_location_from_zip E zip_code w = (Ok (st, ci), w1) ->
  smtp_send E (mail_calls w1)
    {| subject := "Location Information for ZIP " ++ zip_code;
       body_zip := zip_code; body_city := ci; body_state := st;
       from_email := default "noreply@example.com" (DEFAULT_FROM_EMAIL E);
       recipient_list := [email] |} = Some e ->
  exists w',
    process_row E record zip_code email w = (Ok false, w') /\
    email_records w' =
      (email_records w ++
       [{| processing_record := pk record; email_address := email;
           Models.zip_code := zip_code; state := PNone; city := PNone;
           success := false; error_message := Some (exn_str e) |}])%list /\
    outbox w' = outbox w /\
    mail_calls w' = S (mail_calls w).
Proof.
  intros Hloc Hsend.
  destruct (get_location_logs E zip_code w) as [res Hlog].
  rewrite Hloc in Hlog. injection Hlog as _ ->.
  unfold process_row. munfold. rewrite Hloc. simpl.
  unfold send_email_to_address, send_mail. rewrite Hsend. simpl.
  eexists. repeat split.
Qed.

Lemma process_row_mail_failure_witness :
  exists w',
    process_row Cases.mail_down Examples.a_record "90210" "a@x.com"
      (Examples.start ∅) = (Ok false, w') /\
    email_records w' =
      [{| processing_record := 0; email_address := "a@x.com";
          Models.zip_code := "90210"; state := PNone; city := PNone;
          success := false;
          error_message := Some "Connection unexpectedly closed" |}] /\
    outbox w' = [] /\ mail_calls w' = 1%nat.
Proof.
  apply (process_row_mail_failure Cases.mail_down Examples.a_record
           "90210" "a@x.com" (Examples.start ∅)
           (PStr "California") (PStr "Beverly Hills")
           (logged Cases.mail_down "90210" (Examples.start ∅))
           (Exn MailError "Connection unexpectedly closed")).
  - vm_compute. reflexivity.
  - reflexivity.
Defined.

(** *** The lookup adapter *)

(** X5.  Of a JSON object with a non-empty list of places the adapter
    reads the first place only: its "state" and "place name", each
    replaced by "Unknown" when the key is missing.  Any status that
    [raise_for_status] lets through is read this way. *)
Theorem get_location_first_place E zip_code w r items place others :
  next_outcome E zip_code w = Response r ->
  status_code r < 400 \/ 600 <= status_code r ->
  json_body r = Some (PDict items) ->
  assoc "places" items = Some (PList (PDict place :: others)) ->
  get_location_from_zip E zip_code w
  = (Ok (default (PStr "Unknown") (assoc "state" place),
         default (PStr "Unknown") (assoc "place name" place)),
     logged E zip_code w).
Proof.
  intros Hout Hcode Hbody Hplaces.
  unfold get_location_from_zip, requests_get, logged, next_outcome in *.
  munfold. rewrite Hout. simpl.
  rewrite (raise_for_status_ok r Hcode). unfold response_json.
  rewrite Hbody. simpl. unfold has_places, py_in, getitem_str. munfold.
  rewrite Hplaces. rewrite bool_decide_eq_true_2 by eauto. reflexivity.
Qed.

Lemma get_location_first_place_witness :
  let E := Examples.service 200 "OK" (Some Cases.two_places) in
  get_location_from_zip E "10001" (Examples.start ∅)
  = (Ok (PStr "New York", PStr "Unknown"), logged E "10001" (Examples.start ∅)).
Proof.
  intros E.
  apply (get_location_first_place E "10001" (Examples.start ∅)
           {| status_code := 200; reason := "OK";
              resp_url := "https://api.zippopotam.us/us/10001";
              json_body := Some Cases.two_places;
              json_error := Examples.not_json |}
           [("places",
             PList [PDict [("state", PStr "New York")];
                    PDict [("place name", PStr "Elsewhere");
                           ("state", PStr "Other")]])]
           [("state", PStr "New York")]
           [PDict [("place name", PStr "Elsewhere"); ("state", PStr "Other")]]).
  - reflexivity.
  - left. simpl. lia.
  - reflexivity.
  - reflexivity.
Defined.

Lemma get_location_raises E zip_code w e w' :
  get_location_from_zip E zip_code w = (Raise e, w') ->
  (exists detail,
     e = Exn PlainException ("API error for ZIP " ++ zip_code ++ ": " ++ detail))
  \/ (is_request_exception e = false /\
      ((exists r, next_outcome E zip_code w = Response r /\
                  json_body r = None /\ e = json_error r)
       \/ exn_cls e = TypeError \/ exn_cls e = AttributeError \/
          exn_cls e = KeyError \/ exn_cls e = IndexError)).
Proof.
  unfold get_location_from_zip, requests_get, next_outcome. munfold.
  destruct (http_get _ _ _ _) as [d|r] eqn:Hout; simpl.
  { intros [= <- <-]. eauto. }
  unfold raise_for_status.
  destruct ((400 <=? status_code r) && (status_code r <? 500)); simpl.
  { intros [= <- <-]. eauto. }
  destruct ((500 <=? status_code r) && (status_code r <? 600)); simpl.
  { intros [= <- <-]. eauto. }
  unfold response_json. destruct (json_body r) as [data|] eqn:Hbody; simpl.
  2: { destruct (is_request_exception (json_error r)) eqn:Hcls;
         intros [= <- <-]; [eauto|].
       right. split; [exact Hcls|]. left. eauto. }
  unfold has_places, py_in, getitem_str. munfold.
  destruct data as [| | | | s | l | items]; simpl;
    try (intros [= <- <-]; simpl; auto 8; fail).
  - destruct (is_substring "places" s); simpl; [|discriminate].
    intros [= <- <-]. simpl. auto 8.
  - destruct (existsb _ l); simpl; [|discriminate].
    intros [= <- <-]. simpl. auto 8.
  - destruct (assoc "places" items) as [p|] eqn:Hp.
    2: { rewrite bool_decide_eq_false_2 by (intros [? ?]; discriminate).
         discriminate. }
    rewrite bool_decide_eq_true_2 by eauto. simpl.
    destruct p as [| | | | s | l | kv]; simpl;
      try (intros [= <- <-]; simpl; auto 8; fail).
    + destruct (0 <? Z.of_nat (String.length s)) eqn:Hlen; simpl; [|discriminate].
      destruct s as [|c s]; [discriminate|]. simpl.
      intros [= <- <-]. simpl. auto 8.
    + destruct l as [|pl l]; simpl; [discriminate|].
      destruct pl; simpl; intros [= <- <-]; simpl; auto 8.
    + destruct (0 <? _); simpl; [|discriminate].
      intros [= <- <-]. simpl. auto 8.
Qed.

(** X6.  Whatever the service answers, no [requests] exception leaves the
    adapter unwrapped.  An exception that leaves it is the wrapper
    "API error for ZIP <zip>: <detail>", or what [response.json()] raised
    when that is no [requests] exception (RecursionError or ValueError on
    a body the decoder gives up on), or an error of the interpreter on a
    body of unexpected shape (TypeError, AttributeError, KeyError,
    IndexError). *)
Theorem get_location_wraps_request_errors E zip_code w e w' :
  get_location_from_zip E zip_code w = (Raise e, w') ->
  is_request_exception e = false /\
  ((exists detail,
      e = Exn PlainException ("API error for ZIP " ++ zip_code ++ ": " ++ detail))
   \/ (exists r, next_outcome E zip_code w = Response r /\
                 json_body r = None /\ e = json_error r)
   \/ (exn_cls e = TypeError \/ exn_cls e = AttributeError \/
       exn_cls e = KeyError \/ exn_cls e = IndexError)).
Proof.
  intros H. apply get_location_raises in H.
  destruct H as [[d ->]|[Hcls H]].
  - split; [reflexivity|]. eauto.
  - split; [exact Hcls|]. right. exact H.
Qed.

Lemma get_location_wraps_request_errors_witness :
  let E := Cases.deep_body in
  let e := Exn RecursionError
             "maximum recursion depth exceeded while decoding a JSON array from a unicode string" in
  is_request_exception e = false /\
  ((exists detail,
      e = Exn PlainException ("API error for ZIP " ++ "90210" ++ ": " ++ detail))
   \/ (exists r, next_outcome E "90210" (Examples.start ∅) = Response r /\
                 json_body r = None /\ e = json_error r)
   \/ (exn_cls e = TypeError \/ exn_cls e = AttributeError \/
       exn_cls e = KeyError \/ exn_cls e = IndexError)).
Proof.
  intros E e.
  apply (get_location_wraps_request_errors E "90210"
           (Examples.start ∅) e (logged E "90210" (Examples.start ∅))).
  vm_compute. reflexivity.
Defined.

(** X7.  A body that is valid JSON but a scalar (null, a boolean, a
    number), or an object whose "places" is null, is not read as an empty
    result: the adapter raises a TypeError, unwrapped. *)
Theorem get_location_scalar_body E zip_code w r data :
  next_outcome E zip_code w = Response r ->
  status_code r < 400 \/ 600 <= status_code r ->
  json_body r = Some data ->
  (data = PNone \/ (exists b, data = PBool b) \/ (exists n, data = PInt n) \/
   (exists l, data = PFloat l) \/
   (exists items, data = PDict items /\ assoc "places" items = Some PNone)) ->
  exists msg,
    get_location_from_zip E zip_code w
    = (Raise (Exn TypeError msg), logged E zip_code w).
Proof.
  intros Hout Hcode Hbody Hshape.
  unfold get_location_from_zip, requests_get, logged, next_outcome in *.
  munfold. rewrite Hout. simpl.
  rewrite (raise_for_status_ok r Hcode). unfold response_json.
  rewrite Hbody. simpl. unfold has_places, py_in, getitem_str. munfold.
  destruct Hshape as [->|[[b ->]|[[n ->]|[[l ->]|(items & -> & Hp)]]]];
    simpl; eauto.
  rewrite Hp. rewrite bool_decide_eq_true_2 by eauto. simpl. eauto.
Qed.

Lemma get_location_scalar_body_witness :
  let E := Examples.service 200 "OK" (Some PNone) in
  exists msg,
    get_location_from_zip E "90210" (Examples.start ∅)
    = (Raise (Exn TypeError msg), logged E "90210" (Examples.start ∅)).
Proof.
  intros E.
  apply (get_location_scalar_body E "90210" (Examples.start ∅)
           {| status_code := 200; reason := "OK";
              resp_url := "https://api.zippopotam.us/us/90210";
              json_body := Some PNone;
              json_error := Examples.not_json |} PNone).
  - reflexivity.
  - left. simpl. lia.
  - reflexivity.
  - left. reflexivity.
Defined.

(** X24.  The adapter's test for place entries,
    ['places' in data and len(data['places']) > 0], is False exactly on
    the bodies of C4: an object without "places" or whose "places" is an
    empty list, string or object, and an array or a string in which
    "places" does not occur.  On every other body it is True or raises. *)
Theorem has_places_false_iff data :
  has_places data = Ok false <-> zero_places data = true.
Proof.
  split; [|apply has_places_zero].
  unfold zero_places, has_places, py_in, getitem_str, py_len.
  destruct data as [| | | |s|l|items]; munfold; try discriminate.
  - destruct (is_substring "places" s); [discriminate|reflexivity].
  - destruct (existsb (is_str "places") l); [discriminate|reflexivity].
  - destruct (assoc "places" items) as [v|] eqn:Hp; [|reflexivity].
    rewrite bool_decide_eq_true_2 by eauto.
    destruct v as [| | | |[|c s]|[|x l]|[|kv l]]; simpl; try discriminate;
      reflexivity.
Qed.

(** *** One file, by its content *)

Lemma read_rows_first_error E record path w c :
  incoming w !! path = Some c ->
  match (read_rows E record path w).1 with
  | Ok _ => file_fails c = false
  | Raise _ => file_fails c = true
  end.
Proof.
  intros Hfile. rewrite read_rows_eq, Hfile.
  destruct c as [e|fieldnames records]; [reflexivity|]. simpl.
  pose proof (rows_loop_first_error E record fieldnames records 0 0 0 w) as H.
  destruct (rows_loop E record fieldnames records 0 0 0 w).1; by rewrite H.
Qed.

(** The record and the directories after one file. *)
Lemma process_single_csv_outcome E path w :
  exists r,
    csv_records (process_single_csv E path w).2
    = <[next_pk w := r]> (csv_records w) /\
    next_pk (process_single_csv E path w).2 = S (next_pk w) /\
    pk r = next_pk w /\ filename r = path /\
    match incoming w !! path, processed w with
    | Some c, Some dir =>
        if file_fails c
        then status r = failed /\
             incoming (process_single_csv E path w).2 = incoming w /\
             processed (process_single_csv E path w).2 = processed w
        else match fs_rename E (S (clock_reads w)) path (new_filename E path w) with
             | None =>
                 status r = completed /\
                 incoming (process_single_csv E path w).2
                 = delete path (incoming w) /\
                 processed (process_single_csv E path w).2
                 = Some (<[new_filename E path w := c]> dir)
             | Some _ =>
                 status r = failed /\
                 incoming (process_single_csv E path w).2 = incoming w /\
                 processed (process_single_csv E path w).2 = processed w
             end
    | _, _ =>
        status r = failed /\
        incoming (process_single_csv E path w).2 = incoming w /\
        processed (process_single_csv E path w).2 = processed w
    end.
Proof.
  destruct (read_rows E (fresh_record path w) path (created path w))
    as [res w1] eqn:Hread.
  pose proof (read_rows_spec _ _ _ _ _ _ Hread)
    as ((Ht & Hpk & Hin & Hpr & Hck) & _).
  change (incoming (created path w)) with (incoming w) in Hin.
  change (processed (created path w)) with (processed w) in Hpr.
  change (clock_reads (created path w)) with (clock_reads w) in Hck.
  simpl in Ht, Hpk.
  assert (Hcontent : forall c, incoming w !! path = Some c ->
            match res with
            | Ok _ => file_fails c = false
            | Raise _ => file_fails c = true
            end).
  { intros c Hc.
    pose proof (read_rows_first_error E (fresh_record path w) path
                  (created path w) c Hc) as H.
    by rewrite Hread in H. }
  destruct res as [[[t s] f]|e].
  - rewrite (process_single_csv_rows_ok _ _ _ _ _ _ _ Hread). cbv zeta.
    rewrite move_to_processed_eq. cbv zeta. simpl. rewrite Hin, Hpr.
    destruct (incoming w !! path) as [c|] eqn:Hfile.
    + rewrite (Hcontent c eq_refl).
      assert (Hname : new_filename E path
                        (set_csv_records
                           (fun tb => <[next_pk w :=
                              completed_record (fresh_record path w) t s f]> tb)
                           w1)
                      = new_filename E path w).
      { unfold new_filename. simpl. by rewrite Hck. }
      rewrite Hname, Hck.
      destruct (processed w) as [dir|];
        [destruct (fs_rename E (S (clock_reads w)) path (new_filename E path w))|];
        simpl; eexists; rewrite Ht, !insert_insert_eq;
        (split; [reflexivity|]); repeat split; try assumption.
    + simpl. eexists. rewrite Ht, !insert_insert_eq.
      split; [reflexivity|]. repeat split; assumption.
  - rewrite (process_single_csv_read_error _ _ _ _ _ Hread). simpl.
    eexists. rewrite Ht, insert_insert_eq. split; [reflexivity|].
    repeat split; try assumption.
    destruct (incoming w !! path) as [c|] eqn:Hfile; [|by repeat split].
    rewrite (Hcontent c eq_refl).
    destruct (processed w); by repeat split.
Qed.

(** X8.  When every row of a file is handled but the processed directory
    is missing, the move raises after the counters were saved: the record
    ends as failed yet carries the real counts, and the file stays in the
    incoming directory. *)
Theorem process_single_csv_move_failure E path w fieldnames records :
  incoming w !! path = Some (Text fieldnames records) ->
  first_error fieldnames records = None ->
  processed w = None ->
  exists r,
    csv_records (process_single_csv E path w).2 !! next_pk w = Some r /\
    status r = failed /\
    total_rows r = row_count records /\
    successful_rows r + failed_rows r = row_count records /\
    Z.of_nat (length (owned (process_single_csv E path w).2 (next_pk w)))
    >= row_count records /\
    incoming (process_single_csv E path w).2 = incoming w /\
    processed (process_single_csv E path w).2 = None.
Proof.
  intros Hfile Hok Hdir.
  destruct (read_rows E (fresh_record path w) path (created path w))
    as [res w1] eqn:Hread.
  pose proof Hread as Hloop. rewrite read_rows_eq in Hloop.
  change (incoming (created path w)) with (incoming w) in Hloop.
  rewrite Hfile in Hloop.
  pose proof (rows_loop_first_error E (fresh_record path w) fieldnames records
                0 0 0 (created path w)) as Hfirst.
  rewrite Hloop, Hok in Hfirst. simpl in Hfirst.
  destruct res as [[[t s] f]|e]; [|discriminate].
  apply rows_loop_spec in Hloop
    as ((Ht & Hpk & Hin & Hpr & Hck) & new & Hnew & Hown & Hres).
  change (incoming (created path w)) with (incoming w) in Hin.
  change (processed (created path w)) with (processed w) in Hpr.
  simpl in Hnew, Hown.
  rewrite (process_single_csv_rows_ok _ _ _ _ _ _ _ Hread). cbv zeta.
  rewrite move_to_processed_eq. cbv zeta. simpl.
  rewrite Hin, Hpr, Hfile, Hdir. simpl.
  eexists. split; [apply lookup_insert_eq|]. simpl.
  unfold owned. simpl. rewrite Hnew, List.filter_app, (owned_all _ _ Hown).
  rewrite length_app. unfold row_count in *.
  destruct Hres as (Htot & Hsum & _ & _ & Hlen).
  split; [reflexivity|]. split; [lia|]. split; [lia|]. split; [lia|].
  split; [assumption|congruence].
Qed.

Lemma process_single_csv_move_failure_witness :
  let E := Examples.service 200 "OK" (Some Examples.beverly_hills) in
  let w := Cases.no_processed_dir {["input.csv" := Examples.scenario]} in
  exists r,
    csv_records (process_single_csv E "input.csv" w).2 !! 0%nat = Some r /\
    status r = failed /\ total_rows r = 3 /\
    successful_rows r + failed_rows r = 3 /\
    Z.of_nat (length (owned (process_single_csv E "input.csv" w).2 0)) >= 3 /\
    incoming (process_single_csv E "input.csv" w).2 = incoming w /\
    processed (process_single_csv E "input.csv" w).2 = None.
Proof.
  intros E w.
  apply (process_single_csv_move_failure E "input.csv" w ["zip"; "email"]
           [Fields ["90210"; "a@x.com"]; Fields [""; "b@x.com"];
            Fields ["10001"; ""]]).
  - vm_compute. reflexivity.
  - vm_compute. reflexivity.
  - reflexivity.
Defined.

(** *** A pass over the incoming directory *)

Lemma map_fmap {A B : Type} (f : A -> B) (l : list A) : List.map f l = f <$> l.
Proof. induction l as [|x l IH]; simpl; [reflexivity|]. by rewrite IH. Qed.

Lemma glob_csv_elem (m : gmap string csv_file) name :
  name ∈ glob_csv m <-> is_Some (m !! name) /\ is_csv name = true.
Proof.
  unfold glob_csv, is_csv.
  rewrite list_elem_of_In, filter_In, <- list_elem_of_In, map_fmap,
    list_elem_of_fmap.
  split.
  - intros [[[k c] [-> Hin]] Hcsv]. apply elem_of_map_to_list in Hin.
    simpl. eauto.
  - intros [[c Hc] Hcsv]. split; [|exact Hcsv].
    exists (name, c). split; [reflexivity|]. by apply elem_of_map_to_list.
Qed.

Lemma glob_csv_NoDup (m : gmap string csv_file) : NoDup (glob_csv m).
Proof.
  unfold glob_csv. apply NoDup_ListNoDup, List.NoDup_filter, NoDup_ListNoDup.
  rewrite map_fmap. apply NoDup_fst_map_to_list.
Qed.

Lemma glob_csv_nil (m : gmap string csv_file) :
  (forall name, is_Some (m !! name) -> is_csv name = false) ->
  glob_csv m = [].
Proof.
  intros H. destruct (glob_csv m) as [|name rest] eqn:Hg; [reflexivity|].
  assert (Hin : name ∈ glob_csv m) by (rewrite Hg; left).
  apply glob_csv_elem in Hin as [Hsome Hcsv].
  rewrite (H name Hsome) in Hcsv. discriminate.
Qed.

Lemma process_csv_files_eq E w :
  process_csv_files E w =
  (Ok tt, foldl (fun w p => (process_single_csv E p w).2)
            (set_clock_reads (S (clock_reads w)) w) (glob_csv (incoming w))).
Proof.
  unfold process_csv_files.
  destruct (glob_csv (incoming w)) as [|p rest]; unfold datetime_now; munfold;
    [reflexivity|].
  by rewrite for_each_files.
Qed.

(** The records a sequence of files leaves: one per file, in order. *)
Lemma files_fold_records E files :
  forall w,
    let w' := foldl (fun w p => (process_single_csv E p w).2) w files in
    next_pk w' = (next_pk w + length files)%nat /\
    (forall id, (id < next_pk w)%nat ->
                csv_records w' !! id = csv_records w !! id) /\
    (forall i name, files !! i = Some name ->
       exists r, csv_records w' !! (next_pk w + i)%nat = Some r /\
                 filename r = name /\ terminal (status r) = true).
Proof.
  induction files as [|p rest IH]; intros w; simpl.
  - split; [lia|]. split; [reflexivity|]. intros i name. by rewrite lookup_nil.
  - destruct (process_single_csv_outcome E p w)
      as (r & Ht & Hn & Hpk & Hname & Hcase).
    assert (Hterm : terminal (status r) = true).
    { destruct (incoming w !! p) as [c|]; [destruct (processed w) as [d|]|];
        try (destruct Hcase as (-> & _); reflexivity).
      destruct (file_fails c); [|destruct (fs_rename E _ p _)];
        destruct Hcase as (-> & _); reflexivity. }
    destruct (IH (process_single_csv E p w).2) as (Hn' & Hold & Hnew).
    rewrite Hn in Hn', Hold, Hnew.
    split; [lia|]. split.
    + intros id Hid. rewrite Hold by lia. rewrite Ht.
      apply lookup_insert_ne. lia.
    + intros [|i] name Hi; simpl in Hi.
      * injection Hi as <-. exists r. rewrite Nat.add_0_r, Hold by lia.
        rewrite Ht, lookup_insert_eq. auto.
      * destruct (Hnew i name Hi) as (r' & Hr' & Hrest).
        exists r'. replace (next_pk w + S i)%nat with (S (next_pk w) + i)%nat by lia.
        auto.
Qed.

(** One file either leaves both directories as they were or, when its
    content is processed to the end and the rename is accepted, moves its
    entry. *)
Lemma process_single_csv_dirs E p w :
  let w1 := (process_single_csv E p w).2 in
  (incoming w1 = incoming w /\ processed w1 = processed w) \/
  (exists c dir,
     incoming w !! p = Some c /\ file_fails c = false /\
     processed w = Some dir /\
     fs_rename E (S (clock_reads w)) p (new_filename E p w) = None /\
     incoming w1 = delete p (incoming w) /\
     processed w1 = Some (<[new_filename E p w := c]> dir)).
Proof.
  cbv zeta.
  destruct (process_single_csv_outcome E p w) as (r & _ & _ & _ & _ & Hcase).
  destruct (incoming w !! p) as [c|] eqn:Hfile;
    [|left; by destruct Hcase as (_ & ? & ?)].
  destruct (processed w) as [dir|] eqn:Hdir;
    [|left; by destruct Hcase as (_ & ? & ?)].
  destruct (file_fails c) eqn:Hf; [left; by destruct Hcase as (_ & ? & ?)|].
  destruct (fs_rename E (S (clock_reads w)) p (new_filename E p w)) eqn:Hren;
    [left; by destruct Hcase as (_ & ? & ?)|].
  right. exists c, dir. destruct Hcase as (_ & ? & ?). auto 8.
Qed.

(** What a sequence of files can do to the incoming directory, whatever
    the file system answers: nothing is added or altered, and an entry
    that is not among the files, or whose content fails, stays. *)
Lemma files_fold_kept E files :
  forall w name c,
    let w' := foldl (fun w p => (process_single_csv E p w).2) w files in
    (incoming w' !! name = Some c -> incoming w !! name = Some c) /\
    (incoming w !! name = Some c -> name ∉ files \/ file_fails c = true ->
     incoming w' !! name = Some c).
Proof.
  induction files as [|p rest IH]; intros w name c; simpl; [by split|].
  set (w1 := (process_single_csv E p w).2).
  destruct (IH w1 name c) as [Hback Hkeep].
  assert (Hstep : (incoming w1 !! name = Some c -> incoming w !! name = Some c) /\
                  (incoming w !! name = Some c ->
                   name <> p \/ file_fails c = true ->
                   incoming w1 !! name = Some c)).
  { destruct (process_single_csv_dirs E p w)
      as [[Hin _]|(c0 & dir & Hfile & Hf & _ & _ & Hin & _)];
      fold w1 in Hin; rewrite Hin.
    - by split.
    - split.
      + intros H. apply lookup_delete_Some in H as [_ H]. exact H.
      + intros Hn [Hne|Hfail].
        * by rewrite lookup_delete_ne.
        * destruct (decide (name = p)) as [->|Hne];
            [congruence|by rewrite lookup_delete_ne]. }
  destruct Hstep as [Hback1 Hkeep1]. split.
  - intros H. auto.
  - intros Hn Hcase. apply Hkeep; [apply Hkeep1; [exact Hn|]|].
    + destruct Hcase as [Hnin|Hfail]; [left|by right].
      intros ->. apply Hnin. left.
    + destruct Hcase as [Hnin|Hfail]; [left|by right].
      intros Hin. apply Hnin. by right.
Qed.

(** The incoming directory after a sequence of distinct files, with the
    processed directory in place and a file system that accepts every
    rename. *)
Lemma files_fold_incoming E files :
  (forall n src dst, fs_rename E n src dst = None) ->
  NoDup files ->
  forall w,
    is_Some (processed w) ->
    let w' := foldl (fun w p => (process_single_csv E p w).2) w files in
    is_Some (processed w') /\
    forall name,
      incoming w' !! name =
      match incoming w !! name with
      | Some c =>
          if bool_decide (name ∈ files) && negb (file_fails c)
          then None else Some c
      | None => None
      end.
Proof.
  intros Hren.
  induction 1 as [|p rest Hp Hnd IH]; intros w Hdir; simpl.
  - split; [exact Hdir|]. intros name. by destruct (incoming w !! name).
  - destruct (process_single_csv_outcome E p w) as (r & _ & _ & _ & _ & Hcase).
    destruct Hdir as [dir Hdir]. rewrite Hdir, Hren in Hcase.
    set (w1 := (process_single_csv E p w).2) in *.
    assert (Hstep : is_Some (processed w1) /\
              forall name,
                incoming w1 !! name =
                match incoming w !! name with
                | Some c =>
                    if bool_decide (name = p) && negb (file_fails c)
                    then None else Some c
                | None => None
                end).
    { destruct (incoming w !! p) as [c|] eqn:Hfile.
      - destruct (file_fails c) eqn:Hf; destruct Hcase as (_ & Hin & Hpr).
        + rewrite Hin, Hpr. split; [eauto|]. intros name.
          destruct (incoming w !! name) as [c'|] eqn:Hn; [|reflexivity].
          case_bool_decide as Heq; [|reflexivity]. subst name.
          rewrite Hfile in Hn. injection Hn as <-. by rewrite Hf.
        + rewrite Hin, Hpr. split; [eauto|]. intros name.
          case_bool_decide as Heq.
          * subst name. rewrite lookup_delete_eq, Hfile, Hf. reflexivity.
          * rewrite lookup_delete_ne by done.
            by destruct (incoming w !! name).
      - destruct Hcase as (_ & Hin & Hpr). rewrite Hin, Hpr.
        split; [eauto|]. intros name.
        destruct (incoming w !! name) as [c'|] eqn:Hn; [|reflexivity].
        case_bool_decide as Heq; [|reflexivity]. subst name. congruence. }
    destruct Hstep as [Hdir1 Hin1].
    destruct (IH w1 Hdir1) as [Hdir' Hin']. split; [exact Hdir'|].
    intros name. rewrite Hin', Hin1.
    destruct (incoming w !! name) as [c|]; [|reflexivity].
    destruct (decide (name = p)) as [->|Hne].
    + rewrite (bool_decide_eq_true_2 (p = p)) by reflexivity.
      rewrite (bool_decide_eq_true_2 (p ∈ p :: rest)) by left.
      rewrite (bool_decide_eq_false_2 (p ∈ rest)) by exact Hp.
      by destruct (file_fails c).
    + rewrite (bool_decide_eq_false_2 (name = p)) by exact Hne. simpl.
      destruct (decide (name ∈ rest)) as [Hin|Hnin].
      * rewrite (bool_decide_eq_true_2 (name ∈ rest)) by exact Hin.
        rewrite (bool_decide_eq_true_2 (name ∈ p :: rest)) by (by right).
        reflexivity.
      * rewrite (bool_decide_eq_false_2 (name ∈ rest)) by exact Hnin.
        rewrite (bool_decide_eq_false_2 (name ∈ p :: rest)); [reflexivity|].
        intros Hc. apply elem_of_cons in Hc as [?|?]; done.
Qed.

Lemma handle_once_eq E w :
  handle_once E w =
  match processed w with
  | Some _ => process_csv_files E w
  | None =>
      match mkdir_processed E (clock_reads w) with
      | Some e => (Raise e, w)
      | None => process_csv_files E (set_dirs (incoming w) (Some ∅) w)
      end
  end.
Proof.
  unfold handle_once, ensure_directories. munfold.
  destruct (processed w); [reflexivity|].
  destruct (mkdir_processed E (clock_reads w)); reflexivity.
Qed.

(** [handle] returns normally exactly when the processed directory is
    there or can be made; the pass then starts with it in place. *)
Lemma handle_once_ok E w :
  (handle_once E w).1 = Ok tt ->
  exists w0,
    handle_once E w = process_csv_files E w0 /\
    incoming w0 = incoming w /\ is_Some (processed w0).
Proof.
  rewrite handle_once_eq. destruct (processed w) as [dir|] eqn:Hdir.
  - intros _. exists w. rewrite Hdir. eauto.
  - destruct (mkdir_processed E (clock_reads w)); [discriminate|].
    intros _. eexists. split; [reflexivity|]. simpl. eauto.
Qed.

Lemma pass_incoming_lookup E w name :
  (forall n src dst, fs_rename E n src dst = None) ->
  is_Some (processed w) ->
  incoming (process_csv_files E w).2 !! name =
  match incoming w !! name with
  | Some c => if is_csv name && negb (file_fails c) then None else Some c
  | None => None
  end.
Proof.
  intros Hren Hdir. rewrite process_csv_files_eq. cbn [snd].
  set (w0 := set_clock_reads _ _).
  destruct (files_fold_incoming E (glob_csv (incoming w0)) Hren
              (glob_csv_NoDup _) w0) as [_ H]; [exact Hdir|].
  rewrite H. change (incoming w0) with (incoming w).
  destruct (incoming w !! name) as [c|] eqn:Hn; [|reflexivity].
  destruct (is_csv name) eqn:Hcsv.
  - rewrite bool_decide_eq_true_2; [reflexivity|].
    apply glob_csv_elem. eauto.
  - rewrite bool_decide_eq_false_2; [reflexivity|].
    intros Hin. apply glob_csv_elem in Hin as [_ Hin]. congruence.
Qed.

Lemma handle_once_incoming_lookup E w name :
  (handle_once E w).1 = Ok tt ->
  (forall n src dst, fs_rename E n src dst = None) ->
  incoming (handle_once E w).2 !! name =
  match incoming w !! name with
  | Some c => if is_csv name && negb (file_fails c) then None else Some c
  | None => None
  end.
Proof.
  intros Hok Hren. destruct (handle_once_ok E w Hok) as (w0 & -> & Hin & Hdir).
  rewrite (pass_incoming_lookup E w0 name Hren Hdir). by rewrite Hin.
Qed.

Lemma pass_keeps E w name c :
  (incoming (process_csv_files E w).2 !! name = Some c ->
   incoming w !! name = Some c) /\
  (incoming w !! name = Some c -> is_csv name = false \/ file_fails c = true ->
   incoming (process_csv_files E w).2 !! name = Some c).
Proof.
  rewrite process_csv_files_eq. cbn [snd].
  set (w0 := set_clock_reads _ _).
  destruct (files_fold_kept E (glob_csv (incoming w0)) w0 name c) as [Hback Hkeep].
  change (incoming w0) with (incoming w) in *.
  split; [exact Hback|]. intros Hn Hcase. apply Hkeep; [exact Hn|].
  destruct Hcase as [Hcsv|Hfail]; [left|by right].
  intros Hin. apply glob_csv_elem in Hin as [_ Hin]. congruence.
Qed.

(** X9.  A pass over a directory without any entry whose name ends in
    ".csv" reads the clock for its log line and does nothing else: no
    record, no lookup, no mail, and both directories as they were. *)
Theorem pass_without_csv_files E w :
  (forall name, is_Some (incoming w !! name) -> is_csv name = false) ->
  process_csv_files E w = (Ok tt, set_clock_reads (S (clock_reads w)) w).
Proof.
  intros H. rewrite process_csv_files_eq, (glob_csv_nil _ H). reflexivity.
Qed.

Lemma pass_without_csv_files_witness :
  let E := Examples.service 200 "OK" (Some Examples.beverly_hills) in
  let w := Examples.start {["notes.txt" := Examples.scenario]} in
  process_csv_files E w = (Ok tt, set_clock_reads 1 w).
Proof.
  intros E w. apply (pass_without_csv_files E w).
  intros name [c Hc]. unfold w in Hc. simpl in Hc.
  apply lookup_singleton_Some in Hc as [<- _]. reflexivity.
Defined.

(** X10.  When a pass returns normally, it has handled exactly the entries
    of the incoming directory whose name ends in ".csv", each once, and has
    created one record per entry, with consecutive keys in the order of
    handling, the entry's name as filename and a terminal status; records
    that existed before are left alone.  (The record of a file is created
    before the guarded part of [process_single_csv]: an error of the
    database there would end the pass, which is why the statement is about
    a pass that returns.) *)
Theorem pass_one_record_per_file E w :
  (process_csv_files E w).1 = Ok tt ->
  NoDup (glob_csv (incoming w)) /\
  (forall name, name ∈ glob_csv (incoming w) <->
                is_Some (incoming w !! name) /\ is_csv name = true) /\
  next_pk (process_csv_files E w).2
  = (next_pk w + length (glob_csv (incoming w)))%nat /\
  (forall id, (id < next_pk w)%nat ->
     csv_records (process_csv_files E w).2 !! id = csv_records w !! id) /\
  (forall i name, glob_csv (incoming w) !! i = Some name ->
     exists r, csv_records (process_csv_files E w).2 !! (next_pk w + i)%nat
               = Some r /\
               filename r = name /\ terminal (status r) = true).
Proof.
  intros _. rewrite process_csv_files_eq. cbn [fst snd].
  split; [apply glob_csv_NoDup|].
  split; [apply glob_csv_elem|].
  exact (files_fold_records E (glob_csv (incoming w))
           (set_clock_reads (S (clock_reads w)) w)).
Qed.

Lemma pass_one_record_per_file_witness :
  let E := Examples.service 200 "OK" (Some Examples.beverly_hills) in
  let w := Examples.start {["a.csv" := Examples.scenario;
                            "b.csv" := Examples.short_row;
                            "notes.txt" := Examples.scenario]} in
  (process_csv_files E w).1 = Ok tt /\
  next_pk (process_csv_files E w).2 = 2%nat /\
  length (glob_csv (incoming w)) = 2%nat.
Proof.
  intros E w.
  assert (Hok : (process_csv_files E w).1 = Ok tt) by (vm_compute; reflexivity).
  destruct (pass_one_record_per_file E w Hok) as (_ & _ & Hn & _).
  split; [exact Hok|]. split; [|vm_compute; reflexivity].
  rewrite Hn. vm_compute. reflexivity.
Defined.

(** X11.  When [handle] under [--once] returns normally and the file system
    accepts every rename, the incoming directory holds afterwards what it
    held before except the entries whose name ends in ".csv" and whose
    content could be processed to the end: those are gone, the ones that
    failed and all other entries are as they were. *)
Theorem handle_once_incoming E w name :
  (handle_once E w).1 = Ok tt ->
  (forall n src dst, fs_rename E n src dst = None) ->
  incoming (handle_once E w).2 !! name =
  match incoming w !! name with
  | Some c => if is_csv name && negb (file_fails c) then None else Some c
  | None => None
  end.
Proof. apply handle_once_incoming_lookup. Qed.

Lemma handle_once_incoming_witness :
  let E := Examples.service 200 "OK" (Some Examples.beverly_hills) in
  let w := Cases.no_processed_dir {["a.csv" := Examples.scenario;
                                     "b.csv" := Examples.short_row]} in
  incoming (handle_once E w).2 !! "a.csv" = None /\
  incoming (handle_once E w).2 !! "b.csv" = Some Examples.short_row.
Proof.
  intros E w.
  assert (Hok : (handle_once E w).1 = Ok tt) by (vm_compute; reflexivity).
  assert (Hren : forall n src dst, fs_rename E n src dst = None)
    by reflexivity.
  split.
  - rewrite (handle_once_incoming E w "a.csv" Hok Hren).
    vm_compute. reflexivity.
  - rewrite (handle_once_incoming E w "b.csv" Hok Hren).
    vm_compute. reflexivity.
Defined.

(** X12.  When [handle --once] returns normally, the file system accepts
    every rename and no ".csv" entry of the incoming directory fails, the
    pass empties the directory of them, and a pass that follows, under any
    settings, finds nothing to do. *)
Theorem pass_after_clean_pass E E' w :
  (handle_once E w).1 = Ok tt ->
  (forall n src dst, fs_rename E n src dst = None) ->
  (forall name c, incoming w !! name = Some c -> is_csv name = true ->
                  file_fails c = false) ->
  process_csv_files E' (handle_once E w).2
  = (Ok tt, set_clock_reads (S (clock_reads (handle_once E w).2))
              (handle_once E w).2).
Proof.
  intros Hok Hren Hgood.
  rewrite process_csv_files_eq, glob_csv_nil; [reflexivity|].
  intros name [c Hc]. rewrite (handle_once_incoming_lookup E w name Hok Hren) in Hc.
  destruct (incoming w !! name) as [c0|] eqn:Hn; [|discriminate].
  destruct (is_csv name) eqn:Hcsv; [|reflexivity].
  rewrite (Hgood name c0 Hn Hcsv) in Hc. discriminate.
Qed.

Lemma pass_after_clean_pass_witness :
  let E := Examples.service 200 "OK" (Some Examples.beverly_hills) in
  let w := Examples.start {["input.csv" := Examples.scenario]} in
  process_csv_files Examples.offline (handle_once E w).2
  = (Ok tt, set_clock_reads (S (clock_reads (handle_once E w).2))
              (handle_once E w).2).
Proof.
  intros E w. apply (pass_after_clean_pass E Examples.offline w).
  - vm_compute. reflexivity.
  - reflexivity.
  - intros name c Hc _. unfold w in Hc. simpl in Hc.
    apply lookup_singleton_Some in Hc as [_ <-]. vm_compute. reflexivity.
Defined.

Lemma retries_fail E path c :
  file_fails c = true ->
  forall n w,
    incoming w !! path = Some c ->
    let w' := Nat.iter n (fun w => (process_single_csv E path w).2) w in
    incoming w' = incoming w /\ processed w' = processed w /\
    next_pk w' = (next_pk w + n)%nat /\
    (forall id, (id < next_pk w)%nat ->
                csv_records w' !! id = csv_records w !! id) /\
    forall i, (i < n)%nat ->
      exists r, csv_records w' !! (next_pk w + i)%nat = Some r /\
                filename r = path /\ status r = failed.
Proof.
  intros Hfail. induction n as [|n IH]; intros w Hfile; simpl.
  - split; [reflexivity|]. split; [reflexivity|]. split; [lia|].
    split; [reflexivity|]. intros i Hi. lia.
  - destruct (IH w Hfile) as (Hin & Hpr & Hn & Hold & Hnew).
    set (w1 := Nat.iter n _ w) in *.
    destruct (process_single_csv_outcome E path w1)
      as (r & Ht & Hn1 & Hpk & Hname & Hcase).
    assert (Hfile1 : incoming w1 !! path = Some c) by (by rewrite Hin).
    rewrite Hfile1, Hfail in Hcase.
    assert (Hr : status r = failed /\
                 incoming (process_single_csv E path w1).2 = incoming w1 /\
                 processed (process_single_csv E path w1).2 = processed w1).
    { destruct (processed w1); exact Hcase. }
    destruct Hr as (Hst & Hin1 & Hpr1).
    split; [congruence|]. split; [congruence|]. split; [lia|]. split.
    + intros id Hid. rewrite Ht, lookup_insert_ne by lia. by apply Hold.
    + intros i Hi. rewrite Ht.
      destruct (decide (i = n)) as [->|Hne].
      * exists r. rewrite Hn, lookup_insert_eq. auto.
      * rewrite lookup_insert_ne by lia. apply Hnew. lia.
Qed.

(** X13.  A file whose content fails keeps failing: however often it is
    processed again, under whatever answers of the outside, both
    directories stay as they are and every attempt adds one more record
    with status failed. *)
Theorem failing_file_keeps_failing E path c n w :
  file_fails c = true ->
  incoming w !! path = Some c ->
  let w' := Nat.iter n (fun w => (process_single_csv E path w).2) w in
  incoming w' = incoming w /\ processed w' = processed w /\
  next_pk w' = (next_pk w + n)%nat /\
  forall i, (i < n)%nat ->
    exists r, csv_records w' !! (next_pk w + i)%nat = Some r /\
              filename r = path /\ status r = failed.
Proof.
  intros Hfail Hfile.
  destruct (retries_fail E path c Hfail n w Hfile) as (H1 & H2 & H3 & _ & H5).
  auto.
Qed.

Lemma failing_file_keeps_failing_witness :
  let E := Examples.service 200 "OK" (Some Examples.beverly_hills) in
  let w := Examples.start {["input.csv" := Examples.short_row]} in
  let w' := Nat.iter 3 (fun w => (process_single_csv E "input.csv" w).2) w in
  incoming w' = incoming w /\ processed w' = processed w /\
  next_pk w' = 3%nat /\
  forall i, (i < 3)%nat ->
    exists r, csv_records w' !! (0 + i)%nat = Some r /\
              filename r = "input.csv" /\ status r = failed.
Proof.
  intros E w.
  apply (failing_file_keeps_failing E "input.csv" Examples.short_row 3 w).
  - vm_compute. reflexivity.
  - vm_compute. reflexivity.
Defined.

(** *** Cells and names *)

Lemma lstrip_head s c r : lstrip s = String c r -> isspace c = false.
Proof.
  induction s as [|x s IH]; simpl; [discriminate|].
  destruct (isspace x) eqn:Hx; [exact IH|].
  intros [= <- _]. exact Hx.
Qed.

Lemma lstrip_empty s : lstrip s = "" <-> all_space s = true.
Proof.
  unfold all_space. induction s as [|x s IH]; simpl; [done|].
  destruct (isspace x); simpl; [exact IH|]. split; discriminate.
Qed.

Lemma rstrip_empty s : rstrip s = "" <-> all_space s = true.
Proof.
  unfold all_space. induction s as [|x s IH]; simpl; [done|].
  destruct (rstrip s) as [|y r] eqn:Hr.
  - destruct (isspace x); simpl.
    + split; [intros _; by apply IH|reflexivity].
    + split; discriminate.
  - split; [discriminate|]. intros H. apply andb_prop in H as [_ H].
    apply IH in H. discriminate.
Qed.

Lemma rstrip_idem s : rstrip (rstrip s) = rstrip s.
Proof.
  induction s as [|x s IH]; simpl; [reflexivity|].
  destruct (rstrip s) as [|y r] eqn:Hr.
  - destruct (isspace x) eqn:Hx; simpl; [reflexivity|]. by rewrite Hx.
  - simpl in *. by rewrite IH.
Qed.

Lemma rstrip_head c r :
  isspace c = false -> exists r', rstrip (String c r) = String c r'.
Proof.
  intros Hc. simpl. destruct (rstrip r); [rewrite Hc|]; eauto.
Qed.

(** X14.  Trimming gives the empty string exactly for a string of
    whitespace only, so a cell of blanks counts as missing; and a trimmed
    value is left alone when trimmed again. *)
Theorem strip_empty_iff_blank s :
  (strip s = "" <-> all_space s = true) /\ strip (strip s) = strip s.
Proof.
  unfold strip. split.
  - rewrite rstrip_empty. split.
    + intros H. destruct (lstrip s) as [|c r] eqn:Hl.
      * by apply lstrip_empty.
      * apply lstrip_head in Hl. unfold all_space in H. simpl in H.
        rewrite Hl in H. discriminate.
    + intros H. apply lstrip_empty in H. by rewrite H.
  - destruct (lstrip s) as [|c r] eqn:Hl; [reflexivity|].
    apply lstrip_head in Hl.
    destruct (rstrip_head c r Hl) as [r' Hr]. rewrite Hr.
    assert (Hls : lstrip (String c r') = String c r') by (simpl; by rewrite Hl).
    rewrite Hls, <- Hr. apply rstrip_idem.
Qed.

Lemma string_app_inv (a : string) :
  forall b c d,
    a ++ b = c ++ d -> String.length b = String.length d -> a = c /\ b = d.
Proof.
  induction a as [|x a IH]; intros b c d Heq Hlen.
  - destruct c as [|y c]; [auto|]. exfalso.
    change ("" ++ b) with b in Heq. subst b.
    rewrite string_app_cons in Hlen. simpl in Hlen.
    rewrite string_length_app in Hlen. lia.
  - destruct c as [|y c].
    + exfalso. change ("" ++ d) with d in Heq. subst d.
      rewrite string_app_cons in Hlen. simpl in Hlen.
      rewrite string_length_app in Hlen. lia.
    + rewrite !string_app_cons in Heq. injection Heq as -> Heq.
      destruct (IH b c d Heq Hlen) as [-> ->]. auto.
Qed.

Lemma stamp_length d : valid d -> String.length (strftime_stamp d) = 15%nat.
Proof.
  intros Hv. destruct (strftime_stamp_shape d Hv)
    as (date & time & -> & Hd & Ht & _).
  rewrite !string_length_app, Hd, Ht. reflexivity.
Qed.

(** X15.  The name a file is moved to determines the file and the second
    of the move: two moves of files with the same suffix arrive at the
    same name only for the same original name and the same timestamp. *)
Theorem new_filename_injective E p1 p2 w1 w2 :
  valid (now E (clock_reads w1)) ->
  valid (now E (clock_reads w2)) ->
  Path.suffix p1 = Path.suffix p2 ->
  new_filename E p1 w1 = new_filename E p2 w2 ->
  p1 = p2 /\
  strftime_stamp (now E (clock_reads w1)) = strftime_stamp (now E (clock_reads w2)).
Proof.
  intros Hv1 Hv2 Hsuf Heq. unfold new_filename in Heq.
  apply stamp_length in Hv1, Hv2.
  apply string_app_inv in Heq as [Hstem Hrest];
    [|rewrite !string_length_app; congruence].
  apply string_app_inv in Hrest as [_ Hrest];
    [|rewrite !string_length_app; congruence].
  apply string_app_inv in Hrest as [Hts _]; [|congruence].
  split; [|exact Hts].
  rewrite <- (stem_suffix p1), <- (stem_suffix p2). congruence.
Qed.

Lemma new_filename_injective_witness :
  let E := Examples.service 200 "OK" (Some Examples.beverly_hills) in
  let w := Examples.start ∅ in
  "a.csv" = "a.csv" /\
  strftime_stamp (now E (clock_reads w)) = strftime_stamp (now E (clock_reads w)).
Proof.
  intros E w. apply (new_filename_injective E "a.csv" "a.csv" w w).
  - unfold valid. simpl. lia.
  - unfold valid. simpl. lia.
  - reflexivity.
  - reflexivity.
Defined.

Lemma restval_set ks :
  forall (d : gmap string pyval) k,
    k ∈ ks -> foldl (fun d k => <[k := PNone]> d) d ks !! k = Some PNone.
Proof.
  induction ks as [|k' ks IH]; intros d k Hk; [by apply elem_of_nil in Hk|].
  simpl. destruct (decide (k ∈ ks)) as [Hin|Hnin]; [by apply IH|].
  apply elem_of_cons in Hk as [->|Hk]; [|done].
  rewrite restval_lookup by exact Hnin. apply lookup_insert_eq.
Qed.

Lemma zip_into_column fieldnames :
  NoDup fieldnames ->
  forall row (d : gmap string pyval) i k,
    fieldnames !! i = Some k ->
    zip_into d fieldnames row !! k
    = Some (match row !! i with Some x => PStr x | None => PNone end).
Proof.
  induction 1 as [|k' ks Hk' Hnd IH]; intros row d i k Hi;
    [by rewrite lookup_nil in Hi|].
  destruct row as [|x xs].
  - rewrite lookup_nil. apply (restval_set (k' :: ks)).
    by apply list_elem_of_lookup_2 in Hi.
  - destruct i as [|i]; simpl in Hi |- *.
    + injection Hi as <-. rewrite zip_into_absent by exact Hk'.
      apply lookup_insert_eq.
    + by apply IH.
Qed.

(** X16.  The loop finds a cell by the name of its column, wherever the
    column stands in the header (names being distinct): the value read
    under a fieldname is the cell at that fieldname's position, and None
    when the row is too short to have one. *)
Theorem row_get_by_column fieldnames row i k :
  NoDup fieldnames ->
  fieldnames !! i = Some k ->
  row_get (dict_row fieldnames row) k
  = match row !! i with Some x => PStr x | None => PNone end.
Proof.
  intros Hnd Hi. unfold row_get, dict_row.
  by rewrite (zip_into_column fieldnames Hnd row ∅ i k Hi).
Qed.

Lemma row_get_by_column_witness :
  row_get (dict_row ["email"; "name"; "zip"] ["a@x.com"; "Ann"]) "zip" = PNone.
Proof.
  apply (row_get_by_column ["email"; "name"; "zip"] ["a@x.com"; "Ann"] 2 "zip").
  - repeat constructor; intros H; apply list_elem_of_In in H; simpl in H;
      intuition discriminate.
  - reflexivity.
Defined.

(** X17.  A row that has fields but ends before the zip or the email
    column stops the loop with an AttributeError: the cell is None and
    cannot be trimmed.  No RowRecord is written for the row and the rows
    after it are not read. *)
Theorem short_row_raises E record fieldnames row rest i k t s f w :
  NoDup fieldnames ->
  fieldnames !! i = Some k ->
  k = "zip" \/ k = "email" ->
  row <> [] ->
  (length row <= i)%nat ->
  exists msg,
    rows_loop E record fieldnames (Fields row :: rest) t s f w
    = (Raise (Exn AttributeError msg), w).
Proof.
  intros Hnd Hi Hk Hrow Hlen.
  destruct row as [|x xs]; [done|].
  rewrite rows_loop_fields. cbv zeta. munfold.
  assert (Hnone : row_get (dict_row fieldnames (x :: xs)) k = PNone).
  { rewrite (row_get_by_column _ _ i k Hnd Hi).
    by rewrite lookup_ge_None_2. }
  unfold py_strip.
  destruct Hk as [-> | ->].
  - rewrite Hnone. simpl. eauto.
  - rewrite Hnone.
    destruct (row_get (dict_row fieldnames (x :: xs)) "zip"); simpl; eauto.
Qed.

Lemma short_row_raises_witness :
  let E := Examples.service 200 "OK" (Some Examples.beverly_hills) in
  exists msg,
    rows_loop E Examples.a_record ["zip"; "email"]
      [Fields ["10001"]; Fields ["90210"; "a@x.com"]] 0 0 0 (Examples.start ∅)
    = (Raise (Exn AttributeError msg), Examples.start ∅).
Proof.
  intros E.
  apply (short_row_raises E Examples.a_record ["zip"; "email"] ["10001"]
           [Fields ["90210"; "a@x.com"]] 1 "email" 0 0 0 (Examples.start ∅)).
  - repeat constructor; intros H; apply list_elem_of_In in H; simpl in H;
      intuition discriminate.
  - reflexivity.
  - right. reflexivity.
  - discriminate.
  - simpl. lia.
Defined.

(** *** Records *)

(** X18.  The record of a file ends as completed exactly when the entry
    exists, its content has no error, the processed directory is in place
    and the file system accepts the rename to the stamped name; in every
    other case it ends as failed.  It never stays in status processing. *)
Theorem completed_iff E path w :
  exists r,
    csv_records (process_single_csv E path w).2 !! next_pk w = Some r /\
    filename r = path /\
    (status r = completed \/ status r = failed) /\
    (status r = completed <->
     exists c dir, incoming w !! path = Some c /\ file_fails c = false /\
                   processed w = Some dir /\
                   fs_rename E (S (clock_reads w)) path (new_filename E path w)
                   = None).
Proof.
  destruct (process_single_csv_outcome E path w)
    as (r & Ht & _ & _ & Hname & Hcase).
  exists r. rewrite Ht, lookup_insert_eq.
  split; [reflexivity|]. split; [exact Hname|].
  destruct (incoming w !! path) as [c|]; [destruct (processed w) as [dir|]|].
  - destruct (file_fails c) eqn:Hf.
    + destruct Hcase as (Hst & _); rewrite Hst.
      split; [auto|]. split; [discriminate|].
      intros (c' & d' & [= <-] & Hf' & _). congruence.
    + destruct (fs_rename E (S (clock_reads w)) path (new_filename E path w))
        as [e|] eqn:Hren; destruct Hcase as (Hst & _); rewrite Hst.
      * split; [auto|]. split; [discriminate|].
        intros (? & ? & _ & _ & _ & ?). discriminate.
      * split; [auto|]. split; [eauto 8|reflexivity].
  - destruct Hcase as (-> & _). split; [auto|].
    split; [discriminate|]. intros (? & ? & _ & _ & ? & _). discriminate.
  - destruct Hcase as (-> & _). split; [auto|].
    split; [discriminate|]. intros (? & ? & ? & _). discriminate.
Qed.

Lemma completed_iff_witness :
  let E := Cases.disk_full in
  let w := Examples.start {["input.csv" := Examples.scenario]} in
  exists r,
    csv_records (process_single_csv E "input.csv" w).2 !! 0%nat = Some r /\
    filename r = "input.csv" /\ status r = failed /\
    incoming (process_single_csv E "input.csv" w).2 = incoming w.
Proof.
  intros E w.
  destruct (completed_iff E "input.csv" w) as (r & Hr & Hname & Hst & Hiff).
  exists r. split; [exact Hr|]. split; [exact Hname|].
  split; [|vm_compute; reflexivity].
  destruct Hst as [Hc|Hf]; [|exact Hf].
  apply Hiff in Hc as (c & dir & _ & _ & _ & Hren). discriminate.
Defined.

Lemma settled_init w :
  csv_records w = ∅ -> next_pk w = 0%nat -> settled w.
Proof.
  intros Ht Hn. split.
  - intros id. rewrite Ht, Hn, lookup_empty. split; [lia|].
    intros [? ?]; discriminate.
  - intros id r. rewrite Ht, lookup_empty. discriminate.
Qed.

Lemma settled_file E path w : settled w -> settled (process_single_csv E path w).2.
Proof.
  intros [Hkeys Hrec].
  destruct (process_single_csv_outcome E path w)
    as (r & Ht & Hn & Hpk & _ & Hcase).
  assert (Hterm : terminal (status r) = true).
  { destruct (incoming w !! path) as [c|]; [destruct (processed w) as [d|]|];
      try (destruct Hcase as (-> & _); reflexivity).
    destruct (file_fails c); [|destruct (fs_rename E _ path _)];
      destruct Hcase as (-> & _); reflexivity. }
  split.
  - intros id. rewrite Ht, Hn.
    destruct (decide (id = next_pk w)) as [->|Hne].
    + rewrite lookup_insert_eq. split; [eauto|lia].
    + rewrite lookup_insert_ne by done. rewrite <- Hkeys. lia.
  - intros id r0. rewrite Ht.
    destruct (decide (id = next_pk w)) as [->|Hne].
    + rewrite lookup_insert_eq. intros [= <-]. auto.
    + rewrite lookup_insert_ne by done. apply Hrec.
Qed.

Lemma settled_files E files :
  forall w, settled w ->
    settled (foldl (fun w p => (process_single_csv E p w).2) w files).
Proof.
  induction files as [|p rest IH]; intros w H; [exact H|].
  simpl. apply IH, settled_file, H.
Qed.

Lemma reachable_settled w : reachable w -> settled w.
Proof.
  induction 1 as [w Ht Hn He|E path w _ IH|E w _ IH|i p w _ IH].
  - by apply settled_init.
  - by apply settled_file.
  - rewrite process_csv_files_eq. cbn [snd]. apply settled_files. exact IH.
  - exact IH.
Qed.

(** X19.  In every world the command can reach from an empty database,
    the primary keys in use are exactly the numbers below the next key,
    every ProcessingRecord has a terminal status (none is left as
    processing or pending), and every RowRecord refers to a
    ProcessingRecord that exists. *)
Theorem reachable_tables_consistent w :
  reachable w ->
  settled w /\
  forall e, e ∈ email_records w ->
    exists r, csv_records w !! processing_record e = Some r /\
              pk r = processing_record e /\ terminal (status r) = true.
Proof.
  intros Hreach. pose proof (reachable_settled w Hreach) as Hs.
  split; [exact Hs|]. intros e He.
  destruct (reachable_inv w Hreach) as [_ Hfk].
  rewrite Forall_forall in Hfk. specialize (Hfk e He).
  destruct Hs as [Hkeys Hrec].
  apply Hkeys in Hfk as [r Hr]. exists r.
  destruct (Hrec _ _ Hr). auto.
Qed.

Lemma reachable_tables_consistent_witness :
  let E := Examples.service 200 "OK" (Some Examples.beverly_hills) in
  let w := (process_csv_files E (Examples.start Cases.mixed_dir)).2 in
  settled w /\
  forall e, e ∈ email_records w ->
    exists r, csv_records w !! processing_record e = Some r /\
              pk r = processing_record e /\ terminal (status r) = true.
Proof.
  intros E w. apply (reachable_tables_consistent w).
  apply reach_pass, reach_init; reflexivity.
Defined.








(** *** Files without a zip or email column *)



(** *** The file system refusing *)

(** X21.  Whatever the file system and the outside answer, [handle] under
    [--once] adds nothing to the incoming directory and alters no entry of
    it; an entry whose name does not end in ".csv", and a ".csv" entry
    whose content fails, are still there afterwards. *)
Theorem handle_once_keeps E w name c :
  (incoming (handle_once E w).2 !! name = Some c ->
   incoming w !! name = Some c) /\
  (incoming w !! name = Some c ->
   is_csv name = false \/ file_fails c = true ->
   incoming (handle_once E w).2 !! name = Some c).
Proof.
  rewrite handle_once_eq. destruct (processed w) as [dir|].
  - apply pass_keeps.
  - destruct (mkdir_processed E (clock_reads w)) as [e|].
    + by split.
    + apply (pass_keeps E (set_dirs (incoming w) (Some ∅) w)).
Qed.

Lemma handle_once_keeps_witness :
  let E := Examples.service 200 "OK" (Some Examples.beverly_hills) in
  let w := Examples.start Cases.mixed_dir in
  incoming (handle_once E w).2 !! "bad.csv" = Some Examples.short_row /\
  incoming (handle_once E w).2 !! "notes.txt" = Some Examples.scenario.
Proof.
  intros E w. split.
  - apply (handle_once_keeps E w "bad.csv" Examples.short_row).
    + vm_compute. reflexivity.
    + right. vm_compute. reflexivity.
  - apply (handle_once_keeps E w "notes.txt" Examples.scenario).
    + vm_compute. reflexivity.
    + left. vm_compute. reflexivity.
Defined.



(** X23.  When the processed directory is missing and cannot be made,
    [handle] raises the error of [mkdir] before any pass: no file is
    looked at, no record created, nothing changed. *)
Theorem handle_once_mkdir_fails E w e :
  processed w = None ->
  mkdir_processed E (clock_reads w) = Some e ->
  handle_once E w = (Raise e, w).
Proof.
  intros Hdir Hmk. by rewrite handle_once_eq, Hdir, Hmk.
Qed.

Lemma handle_once_mkdir_fails_witness :
  let w := Cases.no_processed_dir {["input.csv" := Examples.scenario]} in
  handle_once Cases.read_only w
  = (Raise (Exn OSError "[Errno 13] Permission denied: 'processed'"), w).
Proof.
  intros w.
  apply (handle_once_mkdir_fails Cases.read_only w
           (Exn OSError "[Errno 13] Permission denied: 'processed'"));
    reflexivity.
Defined.
